(** * Stock Price Checker: the like store and the request handler

    A shallow embedding of [server.js] and of its second copy in the
    repository (the one that has [ensureRow]), and the properties of the
    like-deduplication protocol proved or refuted on it.

    - [Js]: the JavaScript string and value operations the code uses
      ([toUpperCase], [toLowerCase], [String(..)], [split], [trim],
      truthiness, [Array.prototype.includes]).
    - [Db]: the [stock_likes] table and the four SQL statements the code
      sends through [pool.query].
    - [Async]: an [async] function as a tree of awaited statements, its
      sequential run against the table and [Promise.all] of two of them as
      an interleaving chosen by a schedule.
    - [ServerJs], [ServerJs2]: the two copies of the helpers and of the
      [/api/stock-prices] handler. *)

From Stdlib Require Import ZArith Ascii String List Bool Lia.
From stdpp Require Import gmap strings list fin_maps.

Set Warnings "-register-all".
Local Open Scope Z_scope.
Local Open Scope string_scope.

(* ===================================================================== *)
(** ** JavaScript values and strings *)
(* ===================================================================== *)

Module Js.

(** A string is a sequence of characters with codes 0 to 255: what a
    request header holds, and the ticker symbols, IP addresses and flag
    values of a query.  [trim], [split] and [includes] are those of
    JavaScript on such strings.  [toUpperCase] and [toLowerCase] map the
    letters a-z and A-Z: they are those of JavaScript on ASCII strings,
    and a theorem that names the row of an upper-case symbol assumes the
    symbol in [ascii_text]. *)

Definition between (lo hi : nat) (c : ascii) : bool :=
  Nat.leb lo (nat_of_ascii c) && Nat.leb (nat_of_ascii c) hi.

Definition upper_char (c : ascii) : ascii :=
  if between 97 122 c then ascii_of_nat (nat_of_ascii c - 32) else c.

Definition lower_char (c : ascii) : ascii :=
  if between 65 90 c then ascii_of_nat (nat_of_ascii c + 32) else c.

Fixpoint map_chars (f : ascii -> ascii) (s : string) : string :=
  match s with
  | EmptyString => EmptyString
  | String c s' => String (f c) (map_chars f s')
  end.

(** [s.toUpperCase()] and [s.toLowerCase()] *)
Definition toUpperCase (s : string) : string := map_chars upper_char s.
Definition toLowerCase (s : string) : string := map_chars lower_char s.

(** Every character of the string has a code from 1 to 127: an ASCII
    string without the character U+0000, which a TEXT column does not
    take. *)
Fixpoint ascii_text (s : string) : bool :=
  match s with
  | EmptyString => true
  | String c s' => between 1 127 c && ascii_text s'
  end.

(** White space removed by [trim], among the codes 0 to 255: tab, line
    feed, vertical tab, form feed, carriage return, space and the
    no-break space U+00A0. *)
Definition is_space (c : ascii) : bool :=
  between 9 13 c || Nat.eqb (nat_of_ascii c) 32 || Nat.eqb (nat_of_ascii c) 160.

Fixpoint trimStart (s : string) : string :=
  match s with
  | EmptyString => EmptyString
  | String c s' => if is_space c then trimStart s' else s
  end.

Fixpoint trimEnd (s : string) : string :=
  match s with
  | EmptyString => EmptyString
  | String c s' =>
      match trimEnd s' with
      | EmptyString => if is_space c then EmptyString else String c EmptyString
      | r => String c r
      end
  end.

(** [s.trim()] *)
Definition trim (s : string) : string := trimEnd (trimStart s).

(** [s.split(',')[0]]: the part before the first comma *)
Fixpoint split_comma_0 (s : string) : string :=
  match s with
  | EmptyString => EmptyString
  | String c s' =>
      if Nat.eqb (nat_of_ascii c) 44 then EmptyString
      else String c (split_comma_0 s')
  end.

(** [a.join(',')] on an array of strings *)
Fixpoint join_comma (l : list string) : string :=
  match l with
  | [] => EmptyString
  | [s] => s
  | s :: rest => s ++ "," ++ join_comma rest
  end.

(** [a.includes(x)] on an array of strings: strict equality with some
    element. *)
Fixpoint includes (a : list string) (x : string) : bool :=
  match a with
  | [] => false
  | y :: a' => String.eqb y x || includes a' x
  end.

(** A value of [req.query]: absent, a string, an array (a repeated
    parameter) or a nested plain object.  Of an object, what the code can
    observe is whether one of its own keys is [toString]
    ([?like[toString]=x]): its value is then a string or another parsed
    value, never a function. *)
Inductive qval : Type :=
| QUndefined
| QString (s : string)
| QArray (l : list qval)
| QObject (own_toString : bool).

(** The strings of a list of conversions, if each of them returned. *)
Fixpoint all_returned (l : list (option string)) : option (list string) :=
  match l with
  | [] => Some []
  | None :: _ => None
  | Some s :: rest =>
      match all_returned rest with
      | Some r => Some (s :: r)
      | None => None
      end
  end.

(** [String(v)]; [None] when the conversion throws a TypeError: an object
    whose own [toString] is not a function has no primitive value, and an
    array is the join of the conversions of its elements. *)
Fixpoint String_ (v : qval) : option string :=
  match v with
  | QUndefined => Some "undefined"
  | QString s => Some s
  | QArray l =>
      match all_returned
              (List.map (fun x => match x with
                                  | QUndefined => Some EmptyString
                                  | _ => String_ x
                                  end) l) with
      | Some parts => Some (join_comma parts)
      | None => None
      end
  | QObject own_toString =>
      if own_toString then None else Some "[object Object]"
  end.

(** [!v] is false: [undefined] and the empty string are the falsy ones. *)
Definition truthy (v : qval) : bool :=
  match v with
  | QUndefined => false
  | QString s => negb (String.eqb s "")
  | QArray _ | QObject _ => true
  end.

(** [a || b] on possibly undefined strings *)
Definition or_else (a : option string) (b : string) : string :=
  match a with
  | Some s => if String.eqb s "" then b else s
  | None => b
  end.

(** A JavaScript number that is not a like count: a finite double as the
    fraction it denotes, or [NaN]. *)
Inductive number : Type :=
| Finite (num : Z) (den : positive)
| NaN.

End Js.

(* ===================================================================== *)
(** ** The stock_likes table *)
(* ===================================================================== *)

Module Db.

(** One row: [likes INTEGER NOT NULL DEFAULT 0],
    [ips TEXT[] NOT NULL DEFAULT '{}'].  The key [symbol TEXT PRIMARY KEY]
    is the key of the map.  A statement is taken to succeed: a lost
    connection and the upper end of the INTEGER range are outside the
    model. *)
Record Row : Type := mkRow { likes : Z; ips : list string }.

(** The statements sent through [pool.query], with their parameters. *)
Inductive stmt : Type :=
| InsertRow (symbol : string)
    (* INSERT INTO stock_likes (symbol, likes, ips) VALUES ($1, 0, '{}')
       ON CONFLICT (symbol) DO NOTHING *)
| SelectLikesIps (symbol : string)
    (* SELECT likes, ips FROM stock_likes WHERE symbol = $1 *)
| UpdateLike (symbol ip : string)
    (* UPDATE stock_likes SET likes = likes + 1,
       ips = array_append(ips, $2) WHERE symbol = $1 *)
| SelectLikes (symbol : string)
    (* SELECT likes FROM stock_likes WHERE symbol = $1 *)
| SelectOne.
    (* SELECT 1 *)

(** What [rows] holds in the answer. *)
Definition answer (q : stmt) : Type :=
  match q with
  | SelectLikesIps _ => list Row
  | SelectLikes _ => list Z
  | _ => unit
  end.

(** INSERT ... ON CONFLICT (symbol) DO NOTHING *)
Definition insert_row (s : string) (t : gmap string Row) : gmap string Row :=
  match t !! s with
  | Some _ => t
  | None => <[s := mkRow 0 []]> t
  end.

(** UPDATE ... SET likes = likes + 1, ips = array_append(ips, $2)
    WHERE symbol = $1 *)
Definition update_like (s ip : string) (t : gmap string Row) : gmap string Row :=
  match t !! s with
  | Some r => <[s := mkRow (likes r + 1) (ips r ++ [ip])]> t
  | None => t
  end.

(** One statement, executed atomically by the database. *)
Definition exec (q : stmt) (t : gmap string Row) : answer q * gmap string Row :=
  match q as q0 return answer q0 * gmap string Row with
  | InsertRow s => (tt, insert_row s t)
  | SelectLikesIps s =>
      (match t !! s with Some r => [r] | None => [] end, t)
  | UpdateLike s ip => (tt, update_like s ip t)
  | SelectLikes s =>
      (match t !! s with Some r => [likes r] | None => [] end, t)
  | SelectOne => (tt, t)
  end.

(** The database: the table and the statements it has served, oldest
    first. *)
Record Store : Type := mkStore { table : gmap string Row; served : list stmt }.

Definition fresh : Store := mkStore ∅ [].

Definition serve (q : stmt) (s : Store) : answer q * Store :=
  (fst (exec q (table s)), mkStore (snd (exec q (table s))) (served s ++ [q])).

(** The like count and the recorded IPs of a symbol, 0 and none for a
    symbol without a row. *)
Definition likes_of (t : gmap string Row) (s : string) : Z :=
  match t !! s with Some r => likes r | None => 0 end.

Definition ips_of (t : gmap string Row) (s : string) : list string :=
  match t !! s with Some r => ips r | None => [] end.

End Db.

(* ===================================================================== *)
(** ** Async functions over the pool *)
(* ===================================================================== *)

Module Async.
Import Db.

Inductive error : Type :=
| TypeError
| RequestFailed.

(** An [async] function body: it returns, throws, or awaits one
    statement and goes on with the answer. *)
Inductive prog (A : Type) : Type :=
| Ret (a : A)
| Throw (e : error)
| Await (q : stmt) (k : answer q -> prog A).
Arguments Ret {A} a.
Arguments Throw {A} e.
Arguments Await {A} q k.

Fixpoint bind {A B : Type} (p : prog A) (f : A -> prog B) : prog B :=
  match p with
  | Ret a => f a
  | Throw e => Throw e
  | Await q k => Await q (fun r => bind (k r) f)
  end.

(** [await pool.query(q)] *)
Definition pool_query (q : stmt) : prog (answer q) := Await q Ret.

(** [try { p } catch (err) { h }] *)
Fixpoint try_catch {A : Type} (p : prog A) (h : error -> prog A) : prog A :=
  match p with
  | Ret a => Ret a
  | Throw e => h e
  | Await q k => Await q (fun r => try_catch (k r) h)
  end.

Inductive result (A : Type) : Type :=
| Ok (a : A)
| Err (e : error).
Arguments Ok {A} a.
Arguments Err {A} e.

(** A function run alone, every statement served as it is awaited. *)
Fixpoint run {A : Type} (p : prog A) (s : Store) : result A * Store :=
  match p with
  | Ret a => (Ok a, s)
  | Throw e => (Err e, s)
  | Await q k => run (k (fst (serve q s))) (snd (serve q s))
  end.

(** A promise that keeps running after [Promise.all] has rejected with
    [e]: its statements are still served, its outcome is dropped. *)
Fixpoint drain {A B : Type} (p : prog A) (e : error) : prog B :=
  match p with
  | Ret _ => Throw e
  | Throw _ => Throw e
  | Await q k => Await q (fun r => drain (k r) e)
  end.

(** Both pending and no preference left: the left one is served first. *)
Fixpoint left_first {A B : Type} (p : prog A) (q : prog B) : prog (A * B) :=
  match p with
  | Ret a => bind q (fun b => Ret (a, b))
  | Throw e => drain q e
  | Await qa ka => Await qa (fun r => left_first (ka r) q)
  end.

(** [Promise.all([p, q])].  Both functions have been called; each
    awaited statement is served by the database in an order the code
    does not control.  [sched] is that order: [true] serves the pending
    statement of [p], [false] that of [q].  The first rejection is the
    rejection of the whole. *)
Fixpoint all2 {A B : Type} (sched : list bool) (p : prog A) (q : prog B)
  {struct sched} : prog (A * B) :=
  match p, q with
  | Throw e, _ => drain q e
  | Ret a, Throw e => Throw e
  | Await _ _, Throw e => drain p e
  | Ret a, _ => bind q (fun b => Ret (a, b))
  | Await _ _, Ret b => bind p (fun a => Ret (a, b))
  | Await qa ka, Await qb kb =>
      match sched with
      | [] => left_first p q
      | true :: sched' => Await qa (fun r => all2 sched' (ka r) q)
      | false :: sched' => Await qb (fun r => all2 sched' p (kb r))
      end
  end.

End Async.

Declare Scope prog_scope.
Delimit Scope prog_scope with prog.
Notation "x <- p ;; k" := (Async.bind p (fun x => k))
  (at level 20, p at level 99, k at level 200, only parsing) : prog_scope.
Notation "p ;; k" := (Async.bind p (fun _ => k))
  (at level 100, k at level 200, right associativity, only parsing) : prog_scope.

Local Open Scope prog_scope.

(* ===================================================================== *)
(** ** Requests and responses *)
(* ===================================================================== *)

Module Http.
Import Js.

(** What the handler reads of a request: [req.query.stock],
    [req.query.like], [req.headers['x-forwarded-for']],
    [req.connection?.remoteAddress] and [req.ip]. *)
Record request : Type := mkRequest {
  query_stock : qval;
  query_like : qval;
  x_forwarded_for : option string;
  remoteAddress : option string;
  req_ip : option string
}.

(** One entry of [stockData] in the two-symbol form. *)
Record rel_entry : Type := mkRel { rel_stock : string; rel_price : number; rel_likes : Z }.

Inductive stockData : Type :=
| One (stock : string) (price : number) (likes : Z)
| Two (a b : rel_entry).

Inductive body : Type :=
| JsonError (error : string)
| JsonStockData (d : stockData).

Record response : Type := mkResponse { status : Z; json : body }.

(** The answer of the quote proxy as the code reads it: [data.symbol]
    when present, and [Number(data.latestPrice)]. *)
Record quote : Type := mkQuote { data_symbol : option string; data_latestPrice : number }.

(** The orders in which the database serves the statements of the
    promises joined by the handler's two [Promise.all]: the two likes,
    the two prices, the two counts, and the prices against the counts. *)
Record order : Type := mkOrder {
  like_order : list bool;
  price_order : list bool;
  count_order : list bool;
  join_order : list bool
}.

End Http.

(* ===================================================================== *)
(** ** server.js *)
(* ===================================================================== *)

Module ServerJs.
Import Js Db Async Http.

Section WithProxy.

(** The quote proxy answering [axios.get]: [None] when the request fails
    or times out. *)
Variable proxy : string -> option quote.

Definition getStockPrice (symbol : string) : prog (string * number) :=
  match proxy symbol with
  | Some data => Ret (toUpperCase (or_else (data_symbol data) symbol), data_latestPrice data)
  | None => Throw RequestFailed
  end.

Definition getClientIP (req : request) : string :=
  match x_forwarded_for req with
  | Some xf =>
      if String.eqb xf "" then or_else (remoteAddress req) (or_else (req_ip req) "0.0.0.0")
      else trim (split_comma_0 xf)
  | None => or_else (remoteAddress req) (or_else (req_ip req) "0.0.0.0")
  end.

Definition likeStockIfNeeded (symbol ip : string) (likeFlag : bool) : prog unit :=
  pool_query (InsertRow symbol) ;;
  if negb likeFlag then Ret tt
  else
    rows <- pool_query (SelectLikesIps symbol) ;;
    match rows with
    | [] => Throw TypeError
    | row :: _ =>
        let already := includes (ips row) ip in
        if negb already then pool_query (UpdateLike symbol ip) ;; Ret tt
        else Ret tt
    end.

Definition getLikes (symbol : string) : prog Z :=
  rows <- pool_query (SelectLikes symbol) ;;
  Ret (match rows with
       | [] => 0
       | l :: _ => l
       end).

(** [stocks[0].toUpperCase()]: a method of strings only. *)
Definition call_toUpperCase (v : qval) : prog string :=
  match v with
  | QString s => Ret (toUpperCase s)
  | _ => Throw TypeError
  end.

(** [String(v)] inside the [try] block. *)
Definition call_String (v : qval) : prog string :=
  match String_ v with
  | Some s => Ret s
  | None => Throw TypeError
  end.

(** [app.get('/api/stock-prices', ...)] *)
Definition handler (o : order) (req : request) : prog response :=
  try_catch
    (let stock := query_stock req in
     let like := query_like req in
     like_string <- call_String like ;;
     let likeFlag := String.eqb (toLowerCase like_string) "true" in
     let ip := getClientIP req in
     if negb (truthy stock) then
       Ret (mkResponse 400 (JsonError "stock query param required"))
     else
       let stocks := match stock with QArray l => l | _ => [stock] end in
       if Nat.eqb (length stocks) 1 then
         sym <- call_toUpperCase (nth 0 stocks QUndefined) ;;
         likeStockIfNeeded sym ip likeFlag ;;
         (* Promise.all of the one promise *)
         sp <- getStockPrice sym ;;
         likes <- getLikes sym ;;
         Ret (mkResponse 200 (JsonStockData (One (fst sp) (snd sp) likes)))
       else
         stringA <- call_String (nth 0 stocks QUndefined) ;;
         let symA := toUpperCase stringA in
         stringB <- call_String (nth 1 stocks QUndefined) ;;
         let symB := toUpperCase stringB in
         all2 (like_order o)
              (likeStockIfNeeded symA ip likeFlag)
              (likeStockIfNeeded symB ip likeFlag) ;;
         (* Promise.all of the two prices and the two counts *)
         r <- all2 (join_order o)
                (all2 (price_order o) (getStockPrice symA) (getStockPrice symB))
                (all2 (count_order o) (getLikes symA) (getLikes symB)) ;;
         let a := fst (fst r) in
         let b := snd (fst r) in
         let likesA := fst (snd r) in
         let likesB := snd (snd r) in
         let relA := likesA - likesB in
         let relB := likesB - likesA in
         Ret (mkResponse 200 (JsonStockData
                (Two (mkRel (fst a) (snd a) relA) (mkRel (fst b) (snd b) relB)))))
    (fun err => Ret (mkResponse 500 (JsonError "external source error"))).

End WithProxy.

(** [app.get('/health', ...)] *)
Definition health : prog string :=
  try_catch (pool_query SelectOne ;; Ret "ok") (fun e => Ret "db error").

End ServerJs.

(* ===================================================================== *)
(** ** The second copy of server.js, with [ensureRow] *)
(* ===================================================================== *)

Module ServerJs2.
Import Js Db Async Http.

Definition getStockPrice (symbol : string) : prog (string * number) :=
  Ret (toUpperCase symbol, Finite 100 1).

Definition getClientIP (req : request) : string :=
  match x_forwarded_for req with
  | Some xf =>
      if String.eqb xf "" then or_else (remoteAddress req) (or_else (req_ip req) "0.0.0.0")
      else trim (split_comma_0 xf)
  | None => or_else (remoteAddress req) (or_else (req_ip req) "0.0.0.0")
  end.

Definition ensureRow (symbol : string) : prog unit :=
  pool_query (InsertRow symbol) ;; Ret tt.

Definition likeStockIfNeeded (symbol ip : string) (likeFlag : bool) : prog unit :=
  ensureRow symbol ;;
  if negb likeFlag then Ret tt
  else
    rows <- pool_query (SelectLikesIps symbol) ;;
    match rows with
    | [] => Throw TypeError
    | row :: _ =>
        let already := includes (ips row) ip in
        if negb already then pool_query (UpdateLike symbol ip) ;; Ret tt
        else Ret tt
    end.

Definition getLikes (symbol : string) : prog Z :=
  ensureRow symbol ;;
  rows <- pool_query (SelectLikes symbol) ;;
  Ret (match rows with
       | [] => 0
       | l :: _ => l
       end).

Definition call_toUpperCase (v : qval) : prog string :=
  match v with
  | QString s => Ret (toUpperCase s)
  | _ => Throw TypeError
  end.

Definition call_String (v : qval) : prog string :=
  match String_ v with
  | Some s => Ret s
  | None => Throw TypeError
  end.

(** [app.get('/api/stock-prices', ...)] *)
Definition handler (o : order) (req : request) : prog response :=
  try_catch
    (let stock := query_stock req in
     let like := query_like req in
     like_string <- call_String like ;;
     let likeFlag := String.eqb (toLowerCase like_string) "true" in
     let ip := getClientIP req in
     if negb (truthy stock) then
       Ret (mkResponse 400 (JsonError "stock query param required"))
     else
       let stocks := match stock with QArray l => firstn 2 l | _ => [stock] end in
       if Nat.eqb (length stocks) 1 then
         sym <- call_toUpperCase (nth 0 stocks QUndefined) ;;
         likeStockIfNeeded sym ip likeFlag ;;
         sp <- getStockPrice sym ;;
         likes <- getLikes sym ;;
         Ret (mkResponse 200 (JsonStockData (One (fst sp) (snd sp) likes)))
       else
         stringA <- call_String (nth 0 stocks QUndefined) ;;
         let symA := toUpperCase stringA in
         stringB <- call_String (nth 1 stocks QUndefined) ;;
         let symB := toUpperCase stringB in
         all2 (like_order o)
              (likeStockIfNeeded symA ip likeFlag)
              (likeStockIfNeeded symB ip likeFlag) ;;
         (* Promise.all of the two prices and the two counts *)
         r <- all2 (join_order o)
                (all2 (price_order o) (getStockPrice symA) (getStockPrice symB))
                (all2 (count_order o) (getLikes symA) (getLikes symB)) ;;
         let a := fst (fst r) in
         let b := snd (fst r) in
         let likesA := fst (snd r) in
         let likesB := snd (snd r) in
         let relA := likesA - likesB in
         let relB := likesB - likesA in
         Ret (mkResponse 200 (JsonStockData
                (Two (mkRel (fst a) (snd a) relA) (mkRel (fst b) (snd b) relB)))))
    (fun err => Ret (mkResponse 500 (JsonError "external source error"))).

End ServerJs2.

(* ===================================================================== *)
(** ** Vocabulary of the properties *)
(* ===================================================================== *)

Module Rely.
Import Db Async.

Section Safe.

(** [R]: what the statements of other promises may do to the table while
    this one is suspended.  [G]: the statements this one may send. *)
Variable R : gmap string Row -> gmap string Row -> Prop.
Variable G : stmt -> Prop.

(** [safe Post p t]: from table [t], and whatever [R] lets the others do
    between its statements, [p] sends statements of [G] only, never
    throws, and returns a value that [Post] relates to every later
    table. *)
Fixpoint safe {A : Type} (Post : A -> gmap string Row -> Prop)
    (p : prog A) (t : gmap string Row) : Prop :=
  match p with
  | Ret a => forall t', R t t' -> Post a t'
  | Throw _ => False
  | Await q k =>
      G q /\ forall t', R t t' -> safe Post (k (fst (exec q t'))) (snd (exec q t'))
  end.

End Safe.

(** [sends G p]: whatever the answers, [p] sends statements of [G] only. *)
Fixpoint sends {A : Type} (G : stmt -> Prop) (p : prog A) : Prop :=
  match p with
  | Ret _ => True
  | Throw _ => True
  | Await q k => G q /\ forall r, sends G (k r)
  end.

(** Rows are never deleted and recorded IPs are never removed. *)
Definition grows (t t' : gmap string Row) : Prop :=
  dom t ⊆ dom t' /\ forall x ip, ip ∈ ips_of t x -> ip ∈ ips_of t' x.

(** The like count and the IPs of every symbol stay what they are. *)
Definition same_rows (t t' : gmap string Row) : Prop :=
  forall sym, likes_of t' sym = likes_of t sym /\ ips_of t' sym = ips_of t sym.

(** The symbol of the statement is in upper case. *)
Definition upper_stmt (q : stmt) : Prop :=
  match q with
  | InsertRow s | SelectLikesIps s | UpdateLike s _ | SelectLikes s =>
      Js.toUpperCase s = s
  | SelectOne => True
  end.

Definition any_stmt (q : stmt) : Prop := True.

(** Every statement but the UPDATE. *)
Definition no_update (q : stmt) : Prop :=
  match q with
  | UpdateLike _ _ => False
  | _ => True
  end.

End Rely.

Module Protocol.
Import Js Db Async Http Rely.

(** The row of every symbol counts each recorded IP once. *)
Definition counted_once (t : gmap string Row) (sym : string) : Prop :=
  likes_of t sym = Z.of_nat (size (list_to_set (ips_of t sym) : gset string))
  /\ NoDup (ips_of t sym).

(** [n] calls of [p], each awaited before the next. *)
Fixpoint times (n : nat) (p : prog unit) : prog unit :=
  match n with
  | O => Ret tt
  | S n' => p ;; times n' p
  end.

(** The store operations of the second copy, and a sequence of them run
    one after the other. *)
Inductive call2 : Type :=
| EnsureRow2 (symbol : string)
| Like2 (symbol ip : string) (likeFlag : bool)
| GetLikes2 (symbol : string).

Definition call2_prog (c : call2) : prog unit :=
  match c with
  | EnsureRow2 s => ServerJs2.ensureRow s
  | Like2 s ip f => ServerJs2.likeStockIfNeeded s ip f
  | GetLikes2 s => ServerJs2.getLikes s ;; Ret tt
  end.

(** The store operations of server.js, where the row is ensured by the
    first statement of [likeStockIfNeeded]. *)
Inductive call1 : Type :=
| Like1 (symbol ip : string) (likeFlag : bool)
| GetLikes1 (symbol : string).

Definition call1_prog (c : call1) : prog unit :=
  match c with
  | Like1 s ip f => ServerJs.likeStockIfNeeded s ip f
  | GetLikes1 s => ServerJs.getLikes s ;; Ret tt
  end.

Definition run_calls {C : Type} (prog_of : C -> prog unit) (cs : list C) (s : Store) : Store :=
  fold_left (fun s c => snd (run (prog_of c) s)) cs s.

(** What [getLikeCount] is said to do on a symbol without a record. *)
Definition creates_on_read (getLikes : string -> prog Z) : Prop :=
  forall sym s, table s !! sym = None ->
    fst (run (getLikes sym) s) = Ok 0 /\
    table (snd (run (getLikes sym) s)) !! sym = Some (mkRow 0 []).

(** What K concurrent likes from one new IP are said to do, for K = 2:
    one increment whatever the order of the statements. *)
Definition one_increment (like : string -> string -> bool -> prog unit) : Prop :=
  forall sched sym ip s, ip ∉ ips_of (table s) sym ->
    likes_of (table (snd (run (all2 sched (like sym ip true) (like sym ip true)) s))) sym
    = likes_of (table s) sym + 1.

(** The table and the statements of one [likeStockIfNeeded] run alone. *)
Definition like_table (sym ip : string) (likeFlag : bool) (t : gmap string Row)
  : gmap string Row :=
  if likeFlag && negb (includes (ips_of t sym) ip)
  then update_like sym ip (insert_row sym t)
  else insert_row sym t.

Definition like_stmts (sym ip : string) (likeFlag : bool) (t : gmap string Row)
  : list stmt :=
  InsertRow sym ::
  (if likeFlag then
     SelectLikesIps sym ::
     (if includes (ips_of t sym) ip then [] else [UpdateLike sym ip])
   else []).

(** A call with no like requested: it returns, the row of the symbol
    exists afterwards, and no row that existed has changed. *)
Definition ensures_only (like : string -> string -> bool -> prog unit) : Prop :=
  forall sym ip s,
    let s' := snd (run (like sym ip false) s) in
    fst (run (like sym ip false) s) = Ok tt
    /\ is_Some (table s' !! sym)
    /\ (forall x r, table s !! x = Some r -> table s' !! x = Some r)
    /\ (forall x, likes_of (table s') x = likes_of (table s) x
                  /\ ips_of (table s') x = ips_of (table s) x).

(** [n] likes of one symbol from one IP, then a read: the count read is
    one more than the count read before, and the table after any number
    of the calls is the table after the first. *)
Definition one_like_after (like : string -> string -> bool -> prog unit)
    (getLikes : string -> prog Z) (n : nat) (sym ip : string) (s : Store) : Prop :=
  exists k,
    fst (run (getLikes sym) s) = Ok k
    /\ fst (run (times n (like sym ip true) ;; getLikes sym) s) = Ok (k + 1)
    /\ forall m, (1 <= m)%nat ->
         table (snd (run (times m (like sym ip true)) s))
         = table (snd (run (like sym ip true) s)).

(** The handler's reading of the [like] parameter: [String(like)]
    returns a string whose lower case is "true". *)
Definition like_is_true (req : request) : Prop :=
  exists sl, String_ (query_like req) = Some sl /\ toLowerCase sl = "true".



(** The like flag of a request whose [String(like)] returns. *)
Definition like_flag (req : request) : bool :=
  match String_ (query_like req) with
  | Some sl => String.eqb (toLowerCase sl) "true"
  | None => false
  end.

(** The answer of the [catch] block, with the store as it was. *)
Definition answered_500 (r : result response * Store) (s : Store) : Prop :=
  r = (Ok (mkResponse 500 (JsonError "external source error")), s).


(** The two entries of a two-symbol answer mirror each other. *)
Definition rel_likes_mirror (r : result response * Store) (symA symB : string) : Prop :=
  exists ea eb,
    fst r = Ok (mkResponse 200 (JsonStockData (Two ea eb)))
    /\ rel_likes ea = likes_of (table (snd r)) symA - likes_of (table (snd r)) symB
    /\ rel_likes eb = likes_of (table (snd r)) symB - likes_of (table (snd r)) symA
    /\ rel_likes ea = - rel_likes eb.



(** What the handler may send for a request whose like flag is [f]:
    statements on upper-case symbols, and no UPDATE when the flag is
    off. *)
Definition request_stmt (f : bool) (q : stmt) : Prop :=
  upper_stmt q /\ (f = false -> no_update q).

(** The IP of the request is recorded in store [s'] for the symbols that
    the strings [a] and [b] name. *)
Definition recorded_for_both (req : request) (a b : string) (s' : Store) : Prop :=
  ServerJs.getClientIP req ∈ ips_of (table s') (toUpperCase a)
  /\ ServerJs.getClientIP req ∈ ips_of (table s') (toUpperCase b).



(** What a request without [stock] is said to get: the answer 400, with
    the store as it was. *)
Definition rejected_400 (handler : order -> request -> prog response) : Prop :=
  forall o req s, query_stock req = QUndefined ->
    run (handler o req) s
    = (Ok (mkResponse 400 (JsonError "stock query param required")), s).

End Protocol.

(* ===================================================================== *)
(** ** Vocabulary of the further properties *)
(* ===================================================================== *)

Module Outcome.
Import Js Db Async Http.

(** [returns Post p]: whatever the answers of the database, a value that
    [p] returns satisfies [Post]. *)
Fixpoint returns {A : Type} (Post : A -> Prop) (p : prog A) : Prop :=
  match p with
  | Ret a => Post a
  | Throw _ => True
  | Await q k => forall r, returns Post (k r)
  end.

(** [answers Post p]: whatever the answers of the database, [p] does not
    throw and returns a value that satisfies [Post]. *)
Fixpoint answers {A : Type} (Post : A -> Prop) (p : prog A) : Prop :=
  match p with
  | Ret a => Post a
  | Throw _ => False
  | Await q k => forall r, answers Post (k r)
  end.

Definition upper (s : string) : Prop := toUpperCase s = s.

(** The request passes the first two steps of the handler: [String(like)]
    returns and [stock] is truthy. *)
Definition passes_checks (req : request) : Prop :=
  is_Some (String_ (query_like req)) /\ truthy (query_stock req) = true.

(** The shape of an answer to [req].  An error is 500 with its message
    when [String(like)] throws; when it returns, 400 with its message for
    a falsy [stock] and 500 with its message for a truthy one.  Stock
    data come with 200, to a request that passes the checks, with stock
    names in upper case, prices in [price_ok], and mirrored [rel_likes]. *)
Definition shaped (price_ok : number -> Prop) (req : request) (resp : response) : Prop :=
  match json resp with
  | JsonError m =>
      match String_ (query_like req) with
      | None => status resp = 500 /\ m = "external source error"
      | Some _ =>
          if truthy (query_stock req)
          then status resp = 500 /\ m = "external source error"
          else status resp = 400 /\ m = "stock query param required"
      end
  | JsonStockData (One st p l) =>
      status resp = 200 /\ passes_checks req /\ upper st /\ price_ok p
  | JsonStockData (Two a b) =>
      status resp = 200 /\ passes_checks req
      /\ upper (rel_stock a) /\ upper (rel_stock b)
      /\ price_ok (rel_price a) /\ price_ok (rel_price b)
      /\ rel_likes a + rel_likes b = 0
  end.

Definition is_string (v : qval) : bool :=
  match v with
  | QString _ => true
  | _ => false
  end.

(** A request on which a conversion throws before the first statement:
    [String(like)]; or, [stock] being truthy, [toUpperCase] of a single
    stock value that is not a string, or [String(..)] of one of the first
    two stock values of an array that does not hold just one. *)
Definition throws_before_store (req : request) : Prop :=
  String_ (query_like req) = None
  \/ (truthy (query_stock req) = true
      /\ match query_stock req with
         | QArray [v] => is_string v = false
         | QArray l => String_ (nth 0 l QUndefined) = None
                       \/ String_ (nth 1 l QUndefined) = None
         | v => is_string v = false
         end).

End Outcome.

Module Guarantee.
Import Db Async.

Section SafeRg.

(** [R]: what the other promises may do to the table between two
    statements of this one.  [G]: what one statement of this one may do
    to the table it is served on. *)
Variable R : gmap string Row -> gmap string Row -> Prop.
Variable G : gmap string Row -> gmap string Row -> Prop.

Fixpoint safe_rg {A : Type} (Post : A -> gmap string Row -> Prop)
    (p : prog A) (t : gmap string Row) : Prop :=
  match p with
  | Ret a => forall t', R t t' -> Post a t'
  | Throw _ => False
  | Await q k =>
      forall t', R t t' ->
        G t' (snd (exec q t'))
        /\ safe_rg Post (k (fst (exec q t'))) (snd (exec q t'))
  end.

End SafeRg.

(** The row of [sym] is left as it is. *)
Definition keeps_row (sym : string) (t t' : gmap string Row) : Prop :=
  t' !! sym = t !! sym.

(** Only the row of [sym] may differ. *)
Definition only_row (sym : string) (t t' : gmap string Row) : Prop :=
  forall x, x <> sym -> t' !! x = t !! x.

(** Rows outside [sym1] and [sym2] are left as they are. *)
Definition only_rows (sym1 sym2 : string) (t t' : gmap string Row) : Prop :=
  forall x, x <> sym1 -> x <> sym2 -> t' !! x = t !! x.

(** The row of [sym] holds the IPs [l0] followed by some of [ip1], [ip2],
    each at most once, and the count [c0] raised by their number. *)
Definition extended (sym : string) (c0 : Z) (l0 : list string) (ip1 ip2 : string)
    (t : gmap string Row) : Prop :=
  exists ext,
    ips_of t sym = (l0 ++ ext)%list
    /\ likes_of t sym = c0 + Z.of_nat (length ext)
    /\ NoDup ext
    /\ forall x, x ∈ ext -> x = ip1 \/ x = ip2.

(** Between two tables: an [extended] row stays [extended], the row of
    [sym] stays present, and [ip] is recorded after exactly when it was
    before. *)
Definition extends_without (sym : string) (c0 : Z) (l0 : list string)
    (ip1 ip2 ip : string) (t t' : gmap string Row) : Prop :=
  (extended sym c0 l0 ip1 ip2 t -> extended sym c0 l0 ip1 ip2 t')
  /\ (is_Some (t !! sym) -> is_Some (t' !! sym))
  /\ (ip ∈ ips_of t' sym <-> ip ∈ ips_of t sym).

(** Counts do not fall, recorded IPs stay in place at the head of the
    list, rows stay. *)
Definition never_less (t t' : gmap string Row) : Prop :=
  dom t ⊆ dom t'
  /\ forall x, likes_of t x <= likes_of t' x
               /\ exists ext, ips_of t' x = (ips_of t x ++ ext)%list.

End Guarantee.

Module Traffic.
Import Js Db Async Http Protocol Outcome.

(** [likeStockIfNeeded(sym, ip, true)] for each IP of a list, one call
    after the other. *)
Fixpoint like_each (sym : string) (l : list string) : prog unit :=
  match l with
  | [] => Ret tt
  | ip :: rest => ServerJs2.likeStockIfNeeded sym ip true ;; like_each sym rest
  end.

(** The request with another [stock]. *)
Definition with_stock (v : qval) (req : request) : request :=
  mkRequest v (query_like req) (x_forwarded_for req) (remoteAddress req) (req_ip req).

(** The symbol of a store operation. *)
Definition call2_symbol (c : call2) : string :=
  match c with
  | EnsureRow2 s => s
  | Like2 s _ _ => s
  | GetLikes2 s => s
  end.

Definition call1_symbol (c : call1) : string :=
  match c with
  | Like1 s _ _ => s
  | GetLikes1 s => s
  end.

(** A stock value that, when it is a string, is in [ascii_text]. *)
Definition ascii_symbol (v : qval) : Prop :=
  match v with
  | QString sym => ascii_text sym = true
  | _ => True
  end.

(** A request that names ASCII symbols and does not name one symbol
    twice: a single stock value is an [ascii_symbol], and the first two
    stock values of an array that does not hold just one, when their
    [String(..)] return, give ASCII strings whose upper cases differ. *)
Definition separate (req : request) : Prop :=
  match query_stock req with
  | QArray [v] => ascii_symbol v
  | QArray l =>
      match String_ (nth 0 l QUndefined), String_ (nth 1 l QUndefined) with
      | Some a, Some b =>
          ascii_text a = true /\ ascii_text b = true /\ toUpperCase a <> toUpperCase b
      | _, _ => True
      end
  | v => ascii_symbol v
  end.

(** Requests answered one after the other, each with its order of
    service. *)
Definition serve_all (handler : order -> request -> prog response)
    (rs : list (order * request)) (s : Store) : Store :=
  fold_left (fun s r => snd (run (handler (fst r) (snd r)) s)) rs s.

(** The characters that [String.prototype.trim] removes, among those
    with codes 0 to 255, by their codes: U+0009 to U+000D, U+0020 and
    U+00A0. *)
Definition white_space (c : ascii) : Prop :=
  In (nat_of_ascii c) [9; 10; 11; 12; 13; 32; 160]%nat.

(** The first character and the last character of a string. *)
Definition first_char (s : string) : option ascii :=
  match s with
  | EmptyString => None
  | String c _ => Some c
  end.

Fixpoint last_char (s : string) : option ascii :=
  match s with
  | EmptyString => None
  | String c EmptyString => Some c
  | String _ s' => last_char s'
  end.

Fixpoint has_char (c : ascii) (s : string) : bool :=
  match s with
  | EmptyString => false
  | String d s' => Ascii.eqb c d || has_char c s'
  end.

End Traffic.

(* ===================================================================== *)
(** ** Running programs *)
(* ===================================================================== *)

Import Js Db Async Http Rely Protocol Outcome Guarantee Traffic.

Lemma run_bind {A B : Type} (p : prog A) (f : A -> prog B) (s : Store) :
  run (bind p f) s =
  match run p s with
  | (Ok a, s') => run (f a) s'
  | (Err e, s') => (Err e, s')
  end.
Proof.
  revert s. induction p as [a|e|q k IH]; intros s; simpl; try reflexivity.
  apply IH.
Qed.

Lemma run_try_catch {A : Type} (p : prog A) (h : error -> prog A) (s : Store) :
  run (try_catch p h) s =
  match run p s with
  | (Ok a, s') => (Ok a, s')
  | (Err e, s') => run (h e) s'
  end.
Proof.
  revert s. induction p as [a|e|q k IH]; intros s; simpl; try reflexivity.
  apply IH.
Qed.

Lemma includes_elem_of (a : list string) (x : string) :
  includes a x = true <-> x ∈ a.
Proof.
  induction a as [|y a IH]; simpl.
  - split; [discriminate | intros H; inversion H].
  - rewrite orb_true_iff, IH, elem_of_cons, String.eqb_eq. intuition congruence.
Qed.

Lemma includes_not_elem_of (a : list string) (x : string) :
  includes a x = false <-> x ∉ a.
Proof.
  rewrite <- includes_elem_of. destruct (includes a x); intuition congruence.
Qed.

(* ===================================================================== *)
(** ** Promises that tolerate each other *)
(* ===================================================================== *)

Section SafeFacts.

Variable R : gmap string Row -> gmap string Row -> Prop.
Variable G : stmt -> Prop.
Hypothesis R_refl : forall t, R t t.
Hypothesis R_trans : forall t1 t2 t3, R t1 t2 -> R t2 t3 -> R t1 t3.
Hypothesis G_keeps : forall q t, G q -> R t (snd (exec q t)).

Lemma safe_later {A : Type} (Post : A -> gmap string Row -> Prop) (p : prog A) t t' :
  R t t' -> safe R G Post p t -> safe R G Post p t'.
Proof.
  intros Htt'. destruct p as [a|e|q k]; simpl; [|tauto|].
  - intros H t'' Ht''. apply H. eauto.
  - intros [Hq H]. split; [exact Hq|]. intros t'' Ht''. apply H. eauto.
Qed.

Lemma safe_bind {A B : Type} (P : A -> gmap string Row -> Prop)
    (Q : B -> gmap string Row -> Prop) (p : prog A) (f : A -> prog B) :
  forall t,
    safe R G P p t ->
    (forall a t', R t t' -> (forall t'', R t' t'' -> P a t'') -> safe R G Q (f a) t') ->
    safe R G Q (bind p f) t.
Proof.
  induction p as [a|e|q k IH]; intros t Hp Hf; simpl in *.
  - apply Hf; [apply R_refl | exact Hp].
  - contradiction.
  - destruct Hp as [Hq Hk]. split; [exact Hq|].
    intros t' Ht'. apply IH; [apply Hk, Ht'|].
    intros a t'' Ht'' Ha. apply Hf; [|exact Ha].
    apply R_trans with t'; [exact Ht'|].
    apply R_trans with (snd (exec q t')); [apply G_keeps, Hq | exact Ht''].
Qed.

Lemma safe_left_first {A B : Type} (PA : A -> gmap string Row -> Prop)
    (PB : B -> gmap string Row -> Prop) (p : prog A) (q : prog B) :
  forall t,
    safe R G PA p t -> safe R G PB q t ->
    safe R G (fun ab t' => PA (fst ab) t' /\ PB (snd ab) t') (left_first p q) t.
Proof.
  induction p as [a|e|qa ka IH]; intros t Hp Hq; simpl in *.
  - apply safe_bind with (P := PB); [exact Hq|].
    intros b t' Ht' Hb. simpl. intros t'' Ht''. split; [|apply Hb, Ht''].
    apply Hp. eauto.
  - contradiction.
  - destruct Hp as [Hqa Hk]. split; [exact Hqa|].
    intros t' Ht'. apply IH; [apply Hk, Ht'|].
    apply safe_later with t; [|exact Hq].
    apply R_trans with t'; [exact Ht' | apply G_keeps, Hqa].
Qed.

(** Two promises that are safe against each other's statements are safe
    together under [Promise.all], in whatever order they are served. *)
Lemma safe_all2 {A B : Type} (PA : A -> gmap string Row -> Prop)
    (PB : B -> gmap string Row -> Prop) (sched : list bool) :
  forall (p : prog A) (q : prog B) t,
    safe R G PA p t -> safe R G PB q t ->
    safe R G (fun ab t' => PA (fst ab) t' /\ PB (snd ab) t') (all2 sched p q) t.
Proof.
  induction sched as [|b sched IH]; intros p q t Hp Hq.
  - destruct p as [a|e|qa ka], q as [b|e'|qb kb]; simpl in Hp, Hq; try contradiction.
    + simpl. intros t' Ht'. split; [apply Hp | apply Hq]; exact Ht'.
    + change (all2 [] (Ret a) (Await qb kb))
        with (bind (Await qb kb) (fun b => Ret (a, b))).
      apply safe_bind with (P := PB); [exact Hq|].
      intros b t' Ht' Hb. simpl. intros t'' Ht''. split; [|apply Hb, Ht''].
      apply Hp. eauto.
    + change (all2 [] (Await qa ka) (Ret b))
        with (bind (Await qa ka) (fun a => Ret (a, b))).
      apply safe_bind with (P := PA); [exact Hp|].
      intros a t' Ht' Ha. simpl. intros t'' Ht''. split; [apply Ha, Ht''|].
      apply Hq. eauto.
    + change (all2 [] (Await qa ka) (Await qb kb))
        with (left_first (Await qa ka) (Await qb kb)).
      apply safe_left_first; assumption.
  - destruct p as [a|e|qa ka], q as [b'|e'|qb kb]; simpl in Hp, Hq; try contradiction.
    + simpl. intros t' Ht'. split; [apply Hp | apply Hq]; exact Ht'.
    + change (all2 (b :: sched) (Ret a) (Await qb kb))
        with (bind (Await qb kb) (fun b => Ret (a, b))).
      apply safe_bind with (P := PB); [exact Hq|].
      intros b0 t' Ht' Hb. simpl. intros t'' Ht''. split; [|apply Hb, Ht''].
      apply Hp. eauto.
    + change (all2 (b :: sched) (Await qa ka) (Ret b'))
        with (bind (Await qa ka) (fun a => Ret (a, b'))).
      apply safe_bind with (P := PA); [exact Hp|].
      intros a t' Ht' Ha. simpl. intros t'' Ht''. split; [apply Ha, Ht''|].
      apply Hq. eauto.
    + destruct Hp as [Hqa Hka], Hq as [Hqb Hkb]. destruct b; simpl.
      * split; [exact Hqa|]. intros t' Ht'. apply IH; [apply Hka, Ht'|].
        simpl. split; [exact Hqb|]. intros t'' Ht''. apply Hkb.
        apply R_trans with t'; [exact Ht'|].
        apply R_trans with (snd (exec qa t')); [apply G_keeps, Hqa | exact Ht''].
      * split; [exact Hqb|]. intros t' Ht'. apply IH; [|apply Hkb, Ht'].
        simpl. split; [exact Hqa|]. intros t'' Ht''. apply Hka.
        apply R_trans with t'; [exact Ht'|].
        apply R_trans with (snd (exec qb t')); [apply G_keeps, Hqb | exact Ht''].
Qed.

(** A safe promise run alone returns, and only [G] statements have been
    served meanwhile. *)
Lemma safe_run {A : Type} (Post : A -> gmap string Row -> Prop) (p : prog A) :
  forall s, safe R G Post p (table s) ->
    exists a s', run p s = (Ok a, s')
      /\ (forall t', R (table s') t' -> Post a t')
      /\ R (table s) (table s')
      /\ exists l, served s' = (served s ++ l)%list /\ Forall G l.
Proof.
  induction p as [a|e|q k IH]; intros s Hp; simpl in *.
  - exists a, s. repeat split; auto. exists []. rewrite app_nil_r. auto.
  - contradiction.
  - destruct Hp as [Hq Hk].
    destruct (IH (fst (exec q (table s))) (snd (serve q s))) as (a & s' & Hrun & Hpost & HR & l & Hl & HG).
    { simpl. apply Hk, R_refl. }
    exists a, s'. split; [exact Hrun|]. split; [exact Hpost|]. split.
    + apply R_trans with (snd (exec q (table s))); [apply G_keeps, Hq | exact HR].
    + exists (q :: l). split; [|constructor; assumption].
      rewrite Hl. simpl. rewrite <- app_assoc. reflexivity.
Qed.

End SafeFacts.

(* ===================================================================== *)
(** ** What a program can send *)
(* ===================================================================== *)

Lemma sends_weaken {A : Type} (G G' : stmt -> Prop) (p : prog A) :
  (forall q, G q -> G' q) -> sends G p -> sends G' p.
Proof.
  intros HG. induction p as [a|e|q k IH]; cbn; [auto | auto |].
  intros [Hq Hk]. split; [apply HG, Hq | intros r; apply IH, Hk].
Qed.

Lemma sends_bind {A B : Type} (G : stmt -> Prop) (p : prog A) (f : A -> prog B) :
  sends G p -> (forall a, sends G (f a)) -> sends G (bind p f).
Proof.
  intros Hp Hf. induction p as [a|e|q k IH]; cbn in *; [apply Hf | exact I |].
  destruct Hp as [Hq Hk]. split; [exact Hq | intros r; apply IH, Hk].
Qed.

Lemma sends_try_catch {A : Type} (G : stmt -> Prop) (p : prog A) (h : error -> prog A) :
  sends G p -> (forall e, sends G (h e)) -> sends G (try_catch p h).
Proof.
  intros Hp Hh. induction p as [a|e|q k IH]; cbn in *; [exact I | apply Hh |].
  destruct Hp as [Hq Hk]. split; [exact Hq | intros r; apply IH, Hk].
Qed.

Lemma sends_drain {A B : Type} (G : stmt -> Prop) (p : prog A) (e : error) :
  sends G p -> sends G (drain (B := B) p e).
Proof.
  intros Hp. induction p as [a|e'|q k IH]; cbn in *; [exact I | exact I |].
  destruct Hp as [Hq Hk]. split; [exact Hq | intros r; apply IH, Hk].
Qed.

Lemma sends_left_first {A B : Type} (G : stmt -> Prop) (p : prog A) (q : prog B) :
  sends G p -> sends G q -> sends G (left_first p q).
Proof.
  intros Hp Hq. induction p as [a|e|qa ka IH]; cbn in *.
  - apply sends_bind; [exact Hq | intros b; exact I].
  - apply sends_drain, Hq.
  - destruct Hp as [Hqa Hka]. split; [exact Hqa | intros r; apply IH, Hka].
Qed.

Lemma sends_all2 {A B : Type} (G : stmt -> Prop) (sched : list bool) :
  forall (p : prog A) (q : prog B),
    sends G p -> sends G q -> sends G (all2 sched p q).
Proof.
  induction sched as [|b sched IH]; intros p q Hp Hq.
  - destruct p as [a|e|qa ka], q as [b|e'|qb kb]; try exact I.
    + change (sends G (bind (Await qb kb) (fun b => Ret (a, b)))).
      apply sends_bind; [exact Hq | intros b; exact I].
    + change (sends G (drain (B := A * B) (Await qb kb) e)).
      apply sends_drain, Hq.
    + change (sends G (bind (Await qa ka) (fun a => Ret (a, b)))).
      apply sends_bind; [exact Hp | intros a; exact I].
    + change (sends G (drain (B := A * B) (Await qa ka) e')).
      apply sends_drain, Hp.
    + change (sends G (left_first (Await qa ka) (Await qb kb))).
      apply sends_left_first; assumption.
  - destruct p as [a|e|qa ka], q as [b'|e'|qb kb]; try exact I.
    + change (sends G (bind (Await qb kb) (fun b => Ret (a, b)))).
      apply sends_bind; [exact Hq | intros b0; exact I].
    + change (sends G (drain (B := A * B) (Await qb kb) e)).
      apply sends_drain, Hq.
    + change (sends G (bind (Await qa ka) (fun a => Ret (a, b')))).
      apply sends_bind; [exact Hp | intros a; exact I].
    + change (sends G (drain (B := A * B) (Await qa ka) e')).
      apply sends_drain, Hp.
    + destruct b; cbn.
      * destruct Hp as [Hqa Hka]. split; [exact Hqa|].
        intros r. apply IH; [apply Hka | exact Hq].
      * destruct Hq as [Hqb Hkb]. split; [exact Hqb|].
        intros r. apply IH; [exact Hp | apply Hkb].
Qed.

(** The statements served during a run are those the program can send. *)
Lemma sends_served {A : Type} (G : stmt -> Prop) (p : prog A) :
  sends G p -> forall s,
    exists l, served (snd (run p s)) = (served s ++ l)%list /\ Forall G l.
Proof.
  induction p as [a|e|q k IH]; intros Hp s.
  - exists []. cbn. rewrite app_nil_r. auto.
  - exists []. cbn. rewrite app_nil_r. auto.
  - destruct Hp as [Hq Hk].
    change (run (Await q k) s) with (run (k (fst (serve q s))) (snd (serve q s))).
    destruct (IH _ (Hk (fst (serve q s))) (snd (serve q s))) as (l & Hl & HG).
    exists (q :: l). split; [|constructor; assumption].
    rewrite Hl. cbn. rewrite <- app_assoc. reflexivity.
Qed.

(** A relation that every statement of [G] keeps holds between the table
    before and the table after a run. *)
Lemma sends_keeps {A : Type} (R : gmap string Row -> gmap string Row -> Prop)
    (G : stmt -> Prop) (p : prog A) :
  (forall t, R t t) ->
  (forall t1 t2 t3, R t1 t2 -> R t2 t3 -> R t1 t3) ->
  (forall q t, G q -> R t (snd (exec q t))) ->
  sends G p -> forall s, R (table s) (table (snd (run p s))).
Proof.
  intros Hrefl Htrans Hkeeps.
  induction p as [a|e|q k IH]; intros Hp s; [apply Hrefl | apply Hrefl |].
  destruct Hp as [Hq Hk].
  change (run (Await q k) s) with (run (k (fst (serve q s))) (snd (serve q s))).
  apply Htrans with (table (snd (serve q s))); [apply Hkeeps, Hq|].
  apply (IH _ (Hk _) (snd (serve q s))).
Qed.

(* ===================================================================== *)
(** ** The statements on the table *)
(* ===================================================================== *)

Lemma insert_row_lookup (sym x : string) (t : gmap string Row) :
  insert_row sym t !! x =
  if decide (sym = x)
  then Some (mkRow (likes_of t sym) (ips_of t sym))
  else t !! x.
Proof.
  unfold likes_of, ips_of, insert_row. destruct (t !! sym) as [[l i]|] eqn:E.
  - case_decide; subst; simpl; congruence.
  - rewrite lookup_insert. case_decide; reflexivity.
Qed.

Lemma insert_row_likes (sym x : string) (t : gmap string Row) :
  likes_of (insert_row sym t) x = likes_of t x.
Proof.
  unfold likes_of at 1. rewrite insert_row_lookup.
  case_decide; subst; reflexivity.
Qed.

Lemma insert_row_ips (sym x : string) (t : gmap string Row) :
  ips_of (insert_row sym t) x = ips_of t x.
Proof.
  unfold ips_of at 1. rewrite insert_row_lookup.
  case_decide; subst; reflexivity.
Qed.

Lemma insert_row_keeps (sym x : string) (r : Row) (t : gmap string Row) :
  t !! x = Some r -> insert_row sym t !! x = Some r.
Proof.
  intros H. unfold insert_row. destruct (t !! sym) eqn:E; [exact H|].
  rewrite lookup_insert_ne; [exact H | congruence].
Qed.

Lemma insert_row_present (sym : string) (r : Row) (t : gmap string Row) :
  t !! sym = Some r -> insert_row sym t = t.
Proof. intros H. unfold insert_row. rewrite H. reflexivity. Qed.

Lemma insert_row_absent (sym : string) (t : gmap string Row) :
  t !! sym = None -> insert_row sym t = <[sym := mkRow 0 []]> t.
Proof. intros H. unfold insert_row. rewrite H. reflexivity. Qed.

Lemma insert_row_dom (sym : string) (t : gmap string Row) :
  dom (insert_row sym t) = {[sym]} ∪ dom t.
Proof.
  unfold insert_row. destruct (t !! sym) eqn:E.
  - assert (Hin : sym ∈ dom t) by (apply elem_of_dom; eauto).
    symmetry. apply subseteq_union_1_L, singleton_subseteq_l, Hin.
  - apply dom_insert_L.
Qed.

Lemma insert_row_twice (sym : string) (t : gmap string Row) :
  insert_row sym (insert_row sym t) = insert_row sym t.
Proof.
  apply map_eq. intros x. rewrite !insert_row_lookup.
  rewrite insert_row_likes, insert_row_ips. case_decide; reflexivity.
Qed.

Lemma update_like_lookup (sym ip x : string) (t : gmap string Row) :
  update_like sym ip t !! x =
  if decide (sym = x)
  then (fun r => mkRow (likes r + 1) (ips r ++ [ip])) <$> t !! sym
  else t !! x.
Proof.
  unfold update_like. destruct (t !! sym) as [r|] eqn:E.
  - rewrite lookup_insert. case_decide; reflexivity.
  - case_decide; subst; simpl; congruence.
Qed.

Lemma update_like_dom (sym ip : string) (t : gmap string Row) :
  dom (update_like sym ip t) = dom t.
Proof.
  unfold update_like. destruct (t !! sym) as [r|] eqn:E; [|reflexivity].
  rewrite dom_insert_L.
  assert (Hin : sym ∈ dom t) by (apply elem_of_dom; eauto).
  apply subseteq_union_1_L, singleton_subseteq_l, Hin.
Qed.

Lemma exec_dom (q : stmt) (t : gmap string Row) : dom t ⊆ dom (snd (exec q t)).
Proof.
  destruct q as [sym|sym|sym ip|sym|]; cbn [exec snd].
  - rewrite insert_row_dom. set_solver.
  - reflexivity.
  - rewrite update_like_dom. reflexivity.
  - reflexivity.
  - reflexivity.
Qed.

Lemma like_table_lookup (sym ip : string) (f : bool) (t : gmap string Row) (x : string) :
  like_table sym ip f t !! x =
  if decide (sym = x)
  then Some (if f && negb (includes (ips_of t sym) ip)
             then mkRow (likes_of t sym + 1) (ips_of t sym ++ [ip])
             else mkRow (likes_of t sym) (ips_of t sym))
  else t !! x.
Proof.
  unfold like_table.
  destruct (f && negb (includes (ips_of t sym) ip)).
  - rewrite update_like_lookup, !insert_row_lookup.
    rewrite (decide_True (P := sym = sym)) by reflexivity.
    case_decide; reflexivity.
  - apply insert_row_lookup.
Qed.

Lemma like_table_likes (sym ip : string) (f : bool) (t : gmap string Row) (x : string) :
  likes_of (like_table sym ip f t) x =
  if decide (sym = x)
  then likes_of t sym + (if f && negb (includes (ips_of t sym) ip) then 1 else 0)
  else likes_of t x.
Proof.
  unfold likes_of at 1. rewrite like_table_lookup. case_decide; [|reflexivity].
  destruct (f && negb (includes (ips_of t sym) ip)); simpl; lia.
Qed.

Lemma like_table_ips (sym ip : string) (f : bool) (t : gmap string Row) (x : string) :
  ips_of (like_table sym ip f t) x =
  if decide (sym = x)
  then (ips_of t sym ++ (if f && negb (includes (ips_of t sym) ip) then [ip] else []))%list
  else ips_of t x.
Proof.
  unfold ips_of at 1. rewrite like_table_lookup. case_decide; [|reflexivity].
  destruct (f && negb (includes (ips_of t sym) ip)); simpl; [reflexivity|].
  rewrite app_nil_r. reflexivity.
Qed.

(** [likeStockIfNeeded] run alone: it returns, and the store is the one
    [like_table] and [like_stmts] describe. *)
Lemma run_like2 (sym ip : string) (f : bool) (s : Store) :
  run (ServerJs2.likeStockIfNeeded sym ip f) s =
  (Ok tt, mkStore (like_table sym ip f (table s))
                  (served s ++ like_stmts sym ip f (table s))).
Proof.
  unfold like_table, like_stmts.
  destruct f; cbn [andb negb]; cbn; [|reflexivity].
  rewrite insert_row_lookup, decide_True by reflexivity.
  cbn. destruct (includes (ips_of (table s) sym) ip); cbn.
  - rewrite <- app_assoc. reflexivity.
  - rewrite <- !app_assoc. reflexivity.
Qed.

Lemma like_same : ServerJs.likeStockIfNeeded = ServerJs2.likeStockIfNeeded.
Proof. reflexivity. Qed.

Lemma run_like1 (sym ip : string) (f : bool) (s : Store) :
  run (ServerJs.likeStockIfNeeded sym ip f) s =
  (Ok tt, mkStore (like_table sym ip f (table s))
                  (served s ++ like_stmts sym ip f (table s))).
Proof. rewrite like_same. apply run_like2. Qed.

Lemma run_ensureRow (sym : string) (s : Store) :
  run (ServerJs2.ensureRow sym) s =
  (Ok tt, mkStore (insert_row sym (table s)) (served s ++ [InsertRow sym])).
Proof. reflexivity. Qed.

Lemma run_getLikes2 (sym : string) (s : Store) :
  run (ServerJs2.getLikes sym) s =
  (Ok (likes_of (table s) sym),
   mkStore (insert_row sym (table s))
           (served s ++ [InsertRow sym; SelectLikes sym])).
Proof.
  cbn. rewrite insert_row_lookup, decide_True by reflexivity.
  rewrite <- app_assoc. reflexivity.
Qed.

Lemma run_getLikes1 (sym : string) (s : Store) :
  run (ServerJs.getLikes sym) s =
  (Ok (likes_of (table s) sym), mkStore (table s) (served s ++ [SelectLikes sym])).
Proof.
  cbn. unfold likes_of. destruct (table s !! sym); reflexivity.
Qed.

(* ===================================================================== *)
(** ** The store operations run one after the other *)
(* ===================================================================== *)

(** C6.  [ensureRow] creates the row of a symbol that has none, with no
    likes and no IPs; on a symbol that has a row it changes nothing; a
    second call changes nothing.  The INSERT that server.js sends inline
    at the head of [likeStockIfNeeded] does the same. *)
Theorem ensureRow_creates_once (sym : string) (s : Store) :
  let s1 := snd (run (ServerJs2.ensureRow sym) s) in
  fst (run (ServerJs2.ensureRow sym) s) = Ok tt
  /\ (table s !! sym = None -> table s1 = <[sym := mkRow 0 []]> (table s))
  /\ (forall r, table s !! sym = Some r -> table s1 = table s)
  /\ table (snd (run (ServerJs2.ensureRow sym) s1)) = table s1
  /\ (forall ip, table (snd (run (ServerJs.likeStockIfNeeded sym ip false) s)) = table s1).
Proof.
  cbv zeta. rewrite !run_ensureRow. cbn [fst snd table].
  split; [reflexivity|]. split; [apply insert_row_absent|].
  split; [intros r; apply insert_row_present|].
  split; [apply insert_row_twice|].
  intros ip. rewrite run_like1. reflexivity.
Qed.

Lemma like_false_ensures_only : ensures_only ServerJs2.likeStockIfNeeded.
Proof.
  intros sym ip s. cbv zeta. rewrite run_like2. cbn [fst snd table].
  unfold like_table. cbn [andb].
  split; [reflexivity|]. split.
  - rewrite insert_row_lookup, decide_True by reflexivity. eauto.
  - split; [intros x r; apply insert_row_keeps|].
    intros x. split; [apply insert_row_likes | apply insert_row_ips].
Qed.

(** C5.  [likeStockIfNeeded(S, I, false)] returns with the row of S in
    the table, and the like count and the IPs of every symbol, S
    included, are what they were; both copies. *)
Theorem like_not_requested_only_ensures :
  ensures_only ServerJs.likeStockIfNeeded /\ ensures_only ServerJs2.likeStockIfNeeded.
Proof.
  split; [rewrite like_same|]; exact like_false_ensures_only.
Qed.

(** C4, on server.js: [getLikes] of a symbol without a row returns 0 and
    the row is still missing. *)
Lemma getLikes1_creates_nothing :
  table fresh !! "GOOG" = None
  /\ fst (run (ServerJs.getLikes "GOOG") fresh) = Ok 0
  /\ table (snd (run (ServerJs.getLikes "GOOG") fresh)) !! "GOOG" = None
  /\ ~ creates_on_read ServerJs.getLikes.
Proof.
  split; [reflexivity|]. split; [reflexivity|]. split; [reflexivity|].
  intros H. destruct (H "GOOG" fresh) as [_ Hrow]; [reflexivity|].
  rewrite run_getLikes1 in Hrow. cbn in Hrow. discriminate.
Qed.

(** C4, amended.  In the copy whose [getLikes] starts with [ensureRow],
    reading a symbol without a row returns 0 and leaves the row with no
    likes and no IPs; in server.js it returns 0 and leaves the table as it
    was. *)
Theorem getLikes_of_missing_symbol :
  creates_on_read ServerJs2.getLikes
  /\ forall sym s, table s !! sym = None ->
       fst (run (ServerJs.getLikes sym) s) = Ok 0
       /\ table (snd (run (ServerJs.getLikes sym) s)) = table s.
Proof.
  split.
  - intros sym s H. rewrite run_getLikes2. cbn [fst snd table].
    unfold likes_of. rewrite H. split; [reflexivity|].
    rewrite insert_row_absent by exact H. apply lookup_insert_eq.
  - intros sym s H. rewrite run_getLikes1. cbn [fst snd table].
    unfold likes_of. rewrite H. split; reflexivity.
Qed.

Lemma includes_app_last (l : list string) (ip : string) :
  includes (l ++ [ip]) ip = true.
Proof. apply includes_elem_of. set_solver. Qed.

Lemma like_table_twice (sym ip : string) (f : bool) (t : gmap string Row) :
  like_table sym ip f (like_table sym ip f t) = like_table sym ip f t.
Proof.
  apply map_eq. intros x. rewrite like_table_lookup.
  case_decide as Hx; [|rewrite like_table_lookup, decide_False by exact Hx; reflexivity].
  subst x. rewrite like_table_likes, like_table_ips, like_table_lookup.
  rewrite !decide_True by reflexivity.
  destruct (f && negb (includes (ips_of t sym) ip)) eqn:E.
  - rewrite includes_app_last. rewrite andb_false_r. reflexivity.
  - rewrite app_nil_r, E, Z.add_0_r. reflexivity.
Qed.

Lemma run_times_like2 (sym ip : string) (m : nat) (s : Store) :
  (1 <= m)%nat ->
  fst (run (times m (ServerJs2.likeStockIfNeeded sym ip true)) s) = Ok tt
  /\ table (snd (run (times m (ServerJs2.likeStockIfNeeded sym ip true)) s))
     = like_table sym ip true (table s).
Proof.
  intros Hm. destruct m as [|m]; [lia|clear Hm]. revert s.
  induction m as [|m IH]; intros s.
  - cbn [times]. rewrite run_bind, run_like2. cbn. split; reflexivity.
  - change (times (S (S m)) ?p) with (bind p (fun _ => times (S m) p)).
    rewrite run_bind, run_like2.
    destruct (IH (mkStore (like_table sym ip true (table s))
                    (served s ++ like_stmts sym ip true (table s)))) as [H1 H2].
    split; [exact H1|]. rewrite H2. cbn [table]. apply like_table_twice.
Qed.

Lemma one_like_after2 (n : nat) (sym ip : string) (s : Store) :
  (1 <= n)%nat -> ip ∉ ips_of (table s) sym ->
  one_like_after ServerJs2.likeStockIfNeeded ServerJs2.getLikes n sym ip s.
Proof.
  intros Hn Hnew. exists (likes_of (table s) sym).
  split; [rewrite run_getLikes2; reflexivity|]. split.
  - rewrite run_bind.
    destruct (run_times_like2 sym ip n s Hn) as [H1 H2].
    destruct (run _ s) as [[[]|e] s1]; cbn in H1, H2; [|discriminate].
    rewrite run_getLikes2. cbn [fst]. rewrite H2, like_table_likes.
    rewrite decide_True by reflexivity.
    apply includes_not_elem_of in Hnew. rewrite Hnew. reflexivity.
  - intros m Hm. rewrite run_like2. cbn [snd table].
    apply run_times_like2, Hm.
Qed.

Lemma one_like_after1 (n : nat) (sym ip : string) (s : Store) :
  (1 <= n)%nat -> ip ∉ ips_of (table s) sym ->
  one_like_after ServerJs.likeStockIfNeeded ServerJs.getLikes n sym ip s.
Proof.
  intros Hn Hnew. rewrite like_same. exists (likes_of (table s) sym).
  split; [rewrite run_getLikes1; reflexivity|]. split.
  - rewrite run_bind.
    destruct (run_times_like2 sym ip n s Hn) as [H1 H2].
    destruct (run _ s) as [[[]|e] s1]; cbn in H1, H2; [|discriminate].
    rewrite run_getLikes1. cbn [fst]. rewrite H2, like_table_likes.
    rewrite decide_True by reflexivity.
    apply includes_not_elem_of in Hnew. rewrite Hnew. reflexivity.
  - intros m Hm. rewrite run_like2. cbn [snd table].
    apply run_times_like2, Hm.
Qed.

(** C3.  From a store in which I has not liked S, N >= 1 calls of
    [likeStockIfNeeded(S, I, true)] one after the other raise the count
    that [getLikes(S)] returns by exactly 1, and the table after the
    second and later calls is the table after the first; both copies. *)
Theorem repeated_like_counts_once (n : nat) (sym ip : string) (s : Store) :
  (1 <= n)%nat -> ip ∉ ips_of (table s) sym ->
  one_like_after ServerJs.likeStockIfNeeded ServerJs.getLikes n sym ip s
  /\ one_like_after ServerJs2.likeStockIfNeeded ServerJs2.getLikes n sym ip s.
Proof.
  intros Hn Hnew. split; [apply one_like_after1 | apply one_like_after2]; assumption.
Qed.

Lemma repeated_like_counts_once_witness :
  one_like_after ServerJs.likeStockIfNeeded ServerJs.getLikes 3 "GOOG" "1.2.3.4" fresh
  /\ one_like_after ServerJs2.likeStockIfNeeded ServerJs2.getLikes 3 "GOOG" "1.2.3.4" fresh.
Proof.
  apply repeated_like_counts_once; [lia|].
  vm_compute. intros H. inversion H.
Defined.

(* ===================================================================== *)
(** ** Every recorded IP is counted once *)
(* ===================================================================== *)

Lemma counted_once_fresh (x : string) : counted_once (table fresh) x.
Proof. split; [reflexivity | constructor]. Qed.

Lemma counted_once_insert_row (sym x : string) (t : gmap string Row) :
  counted_once t x -> counted_once (insert_row sym t) x.
Proof.
  unfold counted_once. rewrite insert_row_likes, insert_row_ips. tauto.
Qed.

Lemma counted_once_like_table (sym ip x : string) (f : bool) (t : gmap string Row) :
  (forall y, counted_once t y) -> counted_once (like_table sym ip f t) x.
Proof.
  intros Hall. unfold counted_once.
  rewrite like_table_likes, like_table_ips.
  case_decide as Hx; [subst x|apply Hall].
  destruct (Hall sym) as [Hcount Hnodup].
  destruct f; cbn [andb]; [|rewrite app_nil_r, Z.add_0_r; split; assumption].
  destruct (includes (ips_of t sym) ip) eqn:E; cbn [negb].
  - rewrite app_nil_r, Z.add_0_r. split; assumption.
  - apply includes_not_elem_of in E. split.
    + rewrite list_to_set_app_L, size_union.
      * rewrite Hcount. cbn [list_to_set]. rewrite union_empty_r_L, size_singleton. lia.
      * cbn [list_to_set]. rewrite union_empty_r_L.
        apply disjoint_singleton_r. rewrite elem_of_list_to_set. exact E.
    + apply NoDup_app. split; [exact Hnodup|]. split.
      * intros y Hy Hy'. apply list_elem_of_singleton in Hy'. subst y. contradiction.
      * apply NoDup_singleton.
Qed.

Lemma calls2_keep_counted_once (cs : list call2) :
  forall s, (forall x, counted_once (table s) x) ->
  forall x, counted_once (table (run_calls call2_prog cs s)) x.
Proof.
  induction cs as [|c cs IH]; intros s Hs; [exact Hs|].
  cbn [run_calls fold_left]. apply IH. intros x.
  destruct c as [sym|sym ip f|sym]; cbn [call2_prog].
  - rewrite run_ensureRow. cbn [snd table]. apply counted_once_insert_row, Hs.
  - rewrite run_like2. cbn [snd table]. apply counted_once_like_table, Hs.
  - rewrite run_bind, run_getLikes2. cbn [run snd table].
    apply counted_once_insert_row, Hs.
Qed.

Lemma calls1_keep_counted_once (cs : list call1) :
  forall s, (forall x, counted_once (table s) x) ->
  forall x, counted_once (table (run_calls call1_prog cs s)) x.
Proof.
  induction cs as [|c cs IH]; intros s Hs; [exact Hs|].
  cbn [run_calls fold_left]. apply IH. intros x.
  destruct c as [sym ip f|sym]; cbn [call1_prog].
  - rewrite run_like1. cbn [snd table]. apply counted_once_like_table, Hs.
  - rewrite run_bind, run_getLikes1. cbn [run snd table]. apply Hs.
Qed.

(** C2.  After any sequence of [ensureRow], [likeStockIfNeeded] and
    [getLikes] calls, with any arguments, run one after the other on the
    empty table, the like count of every symbol is the number of distinct
    IPs recorded for it and no IP is recorded twice; both copies. *)
Theorem likes_count_distinct_ips (sym : string) :
  (forall cs, counted_once (table (run_calls call1_prog cs fresh)) sym)
  /\ (forall cs, counted_once (table (run_calls call2_prog cs fresh)) sym).
Proof.
  split; intros cs.
  - apply calls1_keep_counted_once, counted_once_fresh.
  - apply calls2_keep_counted_once, counted_once_fresh.
Qed.

(* ===================================================================== *)
(** ** Two likes under Promise.all *)
(* ===================================================================== *)

Lemma update_like_after_insert (sym ip : string) (t : gmap string Row) (x : string) :
  is_Some (t !! sym) ->
  likes_of (update_like sym ip t) x
    = (if decide (sym = x) then likes_of t sym + 1 else likes_of t x)
  /\ ips_of (update_like sym ip t) x
    = (if decide (sym = x) then ips_of t sym ++ [ip] else ips_of t x)%list.
Proof.
  intros [r Hr]. unfold likes_of, ips_of. rewrite update_like_lookup.
  case_decide; [rewrite Hr|]; split; reflexivity.
Qed.

(** The order that serves both SELECTs before either UPDATE: each call
    sees the IP missing, and each sends its UPDATE. *)
Lemma both_selects_before_updates (sym ip : string) (s : Store) :
  ip ∉ ips_of (table s) sym ->
  let r := run (all2 [true; false; true; false]
                  (ServerJs2.likeStockIfNeeded sym ip true)
                  (ServerJs2.likeStockIfNeeded sym ip true)) s in
  fst r = Ok (tt, tt)
  /\ likes_of (table (snd r)) sym = likes_of (table s) sym + 2
  /\ ips_of (table (snd r)) sym = (ips_of (table s) sym ++ [ip; ip])%list.
Proof.
  intros Hnew. apply includes_not_elem_of in Hnew. cbv zeta.
  assert (Hrow : insert_row sym (table s) !! sym
                 = Some (mkRow (likes_of (table s) sym) (ips_of (table s) sym))).
  { rewrite insert_row_lookup, decide_True by reflexivity. reflexivity. }
  repeat (progress (cbn -[likes_of ips_of]; rewrite ?insert_row_twice, ?Hrow, ?Hnew)).
  assert (H1 : is_Some (insert_row sym (table s) !! sym)).
  { rewrite insert_row_lookup, decide_True by reflexivity. eauto. }
  assert (H2 : is_Some (update_like sym ip (insert_row sym (table s)) !! sym)).
  { rewrite update_like_lookup, decide_True by reflexivity.
    destruct H1 as [r ->]. cbn. eauto. }
  destruct (update_like_after_insert sym ip _ sym H2) as [-> ->].
  destruct (update_like_after_insert sym ip _ sym H1) as [-> ->].
  rewrite !decide_True by reflexivity.
  rewrite insert_row_likes, insert_row_ips, <- app_assoc.
  split; [reflexivity|]. split; [lia | reflexivity].
Qed.

(** Served one after the other, the same two calls count once. *)
Lemma likes_in_turn_count_once (sym ip : string) (s : Store) :
  ip ∉ ips_of (table s) sym ->
  let r := run (all2 [true; true; true]
                  (ServerJs2.likeStockIfNeeded sym ip true)
                  (ServerJs2.likeStockIfNeeded sym ip true)) s in
  fst r = Ok (tt, tt)
  /\ likes_of (table (snd r)) sym = likes_of (table s) sym + 1
  /\ ips_of (table (snd r)) sym = (ips_of (table s) sym ++ [ip])%list.
Proof.
  intros Hnew. apply includes_not_elem_of in Hnew. cbv zeta.
  assert (Hrow : insert_row sym (table s) !! sym
                 = Some (mkRow (likes_of (table s) sym) (ips_of (table s) sym))).
  { rewrite insert_row_lookup, decide_True by reflexivity. reflexivity. }
  assert (H1 : is_Some (insert_row sym (table s) !! sym)) by (rewrite Hrow; eauto).
  assert (Hrow' : update_like sym ip (insert_row sym (table s)) !! sym
                  = Some (mkRow (likes_of (table s) sym + 1) (ips_of (table s) sym ++ [ip]))).
  { rewrite update_like_lookup, decide_True, Hrow by reflexivity. reflexivity. }
  assert (Hsame : insert_row sym (update_like sym ip (insert_row sym (table s)))
                  = update_like sym ip (insert_row sym (table s))).
  { eapply insert_row_present, Hrow'. }
  repeat (progress (cbn -[likes_of ips_of];
                    rewrite ?Hsame, ?Hrow', ?Hrow, ?Hnew, ?includes_app_last)).
  destruct (update_like_after_insert sym ip _ sym H1) as [-> ->].
  rewrite !decide_True by reflexivity.
  rewrite insert_row_likes, insert_row_ips. auto.
Qed.

(** C1, on the code.  Two [likeStockIfNeeded("GOOG", "1.2.3.4", true)]
    started together on the empty table, both SELECTs served before the
    UPDATEs: the count is 2 and the IP is recorded twice.  So it is not
    the case that every order of the statements leaves one increment; in
    either copy. *)
Theorem concurrent_likes_counted_twice :
  table (snd (run (all2 [true; false; true; false]
                     (ServerJs.likeStockIfNeeded "GOOG" "1.2.3.4" true)
                     (ServerJs.likeStockIfNeeded "GOOG" "1.2.3.4" true)) fresh))
    = {[ "GOOG" := mkRow 2 ["1.2.3.4"; "1.2.3.4"] ]}
  /\ ~ one_increment ServerJs.likeStockIfNeeded
  /\ ~ one_increment ServerJs2.likeStockIfNeeded.
Proof.
  split; [vm_compute; reflexivity|].
  assert (H : ~ one_increment ServerJs2.likeStockIfNeeded).
  { intros H.
    specialize (H [true; false; true; false] "GOOG" "1.2.3.4" fresh).
    vm_compute in H. specialize (H ltac:(intros Hin; inversion Hin)). discriminate. }
  split; [rewrite like_same|]; exact H.
Qed.

(** The same through the handler: one request naming the same symbol
    twice, with [like=true]. *)
Lemma one_request_counted_twice :
  let req := mkRequest (QArray [QString "GOOG"; QString "goog"]) (QString "true")
               (Some "1.2.3.4") None None in
  let o := mkOrder [true; false; true; false] [] [] [] in
  table (snd (run (ServerJs2.handler o req) fresh))
    = {[ "GOOG" := mkRow 2 ["1.2.3.4"; "1.2.3.4"] ]}
  /\ forall proxy,
       table (snd (run (ServerJs.handler proxy o req) fresh))
       = {[ "GOOG" := mkRow 2 ["1.2.3.4"; "1.2.3.4"] ]}.
Proof.
  cbv zeta. split; [vm_compute; reflexivity|].
  intros proxy. unfold ServerJs.handler.
  rewrite run_try_catch. cbn -[all2 ServerJs.getLikes ServerJs.getStockPrice].
  rewrite run_bind.
  set (r1 := run (all2 _ _ _) fresh).
  assert (Hr1 : r1 = (Ok (tt, tt),
            mkStore {[ "GOOG" := mkRow 2 ["1.2.3.4"; "1.2.3.4"] ]}
              [InsertRow "GOOG"; InsertRow "GOOG"; SelectLikesIps "GOOG";
               SelectLikesIps "GOOG"; UpdateLike "GOOG" "1.2.3.4";
               UpdateLike "GOOG" "1.2.3.4"])) by (vm_compute; reflexivity).
  rewrite Hr1. clear r1 Hr1.
  rewrite run_bind.
  unfold ServerJs.getStockPrice.
  repeat match goal with
         | |- context [upper_char ?c] =>
             let v := eval vm_compute in (upper_char c) in
             change (upper_char c) with v
         end.
  destruct (proxy "GOOG") as [d|]; vm_compute; reflexivity.
Qed.

(* ===================================================================== *)
(** ** The handler on one symbol *)
(* ===================================================================== *)

Lemma upper_char_idem (c : ascii) : upper_char (upper_char c) = upper_char c.
Proof. destruct c as [[] [] [] [] [] [] [] []]; reflexivity. Qed.

Lemma toUpperCase_idem (s : string) : toUpperCase (toUpperCase s) = toUpperCase s.
Proof.
  unfold toUpperCase. induction s as [|c s IH]; cbn; [reflexivity|].
  rewrite upper_char_idem, IH. reflexivity.
Qed.

Lemma toUpperCase_empty (s : string) : s <> "" -> toUpperCase s <> "".
Proof. destruct s; [congruence | discriminate]. Qed.

Lemma getClientIP_same : ServerJs.getClientIP = ServerJs2.getClientIP.
Proof. reflexivity. Qed.

Lemma like_table_insert_row (sym ip : string) (f : bool) (t : gmap string Row) :
  insert_row sym (like_table sym ip f t) = like_table sym ip f t.
Proof.
  destruct (like_table sym ip f t !! sym) as [r|] eqn:E.
  - apply insert_row_present with r, E.
  - rewrite like_table_lookup, decide_True in E by reflexivity. discriminate.
Qed.

(** The second copy on a request with one symbol. *)
Lemma run_handler2_single (o : order) (req : request) (sym : string) (s : Store) :
  query_stock req = QString sym -> sym <> "" ->
  is_Some (String_ (query_like req)) ->
  let U := toUpperCase sym in
  let ip := ServerJs2.getClientIP req in
  let f := like_flag req in
  run (ServerJs2.handler o req) s =
  (Ok (mkResponse 200 (JsonStockData
         (One U (Finite 100 1) (likes_of (like_table U ip f (table s)) U)))),
   mkStore (like_table U ip f (table s))
           (served s ++ like_stmts U ip f (table s) ++ [InsertRow U; SelectLikes U])).
Proof.
  intros Hstock Hsym [sl Hsl]. cbv zeta.
  unfold ServerJs2.handler, ServerJs2.call_String, like_flag.
  rewrite Hstock, Hsl.
  cbn [truthy bind]. apply String.eqb_neq in Hsym. rewrite Hsym.
  cbn [negb length Nat.eqb nth ServerJs2.call_toUpperCase bind].
  rewrite run_try_catch, run_bind, run_like2.
  cbn [ServerJs2.getStockPrice bind].
  rewrite run_bind, run_getLikes2. cbn [run fst snd table served].
  rewrite toUpperCase_idem, like_table_insert_row, <- app_assoc. reflexivity.
Qed.

(** server.js on a request with one symbol: the like is recorded before
    the quote is asked for, and the count is read only when the quote
    came. *)
Lemma run_handler1_single (proxy : string -> option quote) (o : order)
    (req : request) (sym : string) (s : Store) :
  query_stock req = QString sym -> sym <> "" ->
  is_Some (String_ (query_like req)) ->
  let U := toUpperCase sym in
  let ip := ServerJs.getClientIP req in
  let f := like_flag req in
  run (ServerJs.handler proxy o req) s =
  match proxy U with
  | Some d =>
      (Ok (mkResponse 200 (JsonStockData
             (One (toUpperCase (or_else (data_symbol d) U)) (data_latestPrice d)
                  (likes_of (like_table U ip f (table s)) U)))),
       mkStore (like_table U ip f (table s))
               (served s ++ like_stmts U ip f (table s) ++ [SelectLikes U]))
  | None =>
      (Ok (mkResponse 500 (JsonError "external source error")),
       mkStore (like_table U ip f (table s))
               (served s ++ like_stmts U ip f (table s)))
  end.
Proof.
  intros Hstock Hsym [sl Hsl]. cbv zeta.
  unfold ServerJs.handler, ServerJs.call_String, like_flag.
  rewrite Hstock, Hsl.
  cbn [truthy bind]. apply String.eqb_neq in Hsym. rewrite Hsym.
  cbn [negb length Nat.eqb nth ServerJs.call_toUpperCase bind].
  rewrite run_try_catch, run_bind, run_like1.
  unfold ServerJs.getStockPrice. destruct (proxy (toUpperCase sym)) as [d|].
  - cbn [bind]. rewrite run_bind, run_getLikes1. cbn [run fst snd table served].
    rewrite <- app_assoc. reflexivity.
  - reflexivity.
Qed.

(** C8, as the claim states it, fails on a request without [stock]
    whose [like] is an object with its own [toString]
    ([?like[toString]=x]): [String(like)] is evaluated before the check
    of [stock] and throws, so the answer is 500, not 400; the store is
    left as it was.  Both copies. *)
Lemma missing_stock_object_like_answered_500 :
  let req := mkRequest QUndefined (QObject true) None None None in
  let o := mkOrder [] [] [] [] in
  run (ServerJs2.handler o req) fresh
    = (Ok (mkResponse 500 (JsonError "external source error")), fresh)
  /\ (forall proxy, run (ServerJs.handler proxy o req) fresh
                    = (Ok (mkResponse 500 (JsonError "external source error")), fresh))
  /\ ~ rejected_400 ServerJs2.handler
  /\ (forall proxy, ~ rejected_400 (ServerJs.handler proxy)).
Proof.
  cbv zeta. split; [reflexivity|]. split; [reflexivity|]. split.
  - intros H.
    specialize (H (mkOrder [] [] [] [])
                  (mkRequest QUndefined (QObject true) None None None) fresh eq_refl).
    discriminate H.
  - intros proxy H.
    specialize (H (mkOrder [] [] [] [])
                  (mkRequest QUndefined (QObject true) None None None) fresh eq_refl).
    discriminate H.
Qed.

(** C8, amended.  A request without [stock] (or with an empty one) leaves
    the store as it was: no row created or changed, no statement sent.
    It is answered 400 when [String(like)] returns, and 500 when it
    throws; both copies. *)
Theorem missing_stock_rejected_before_store (proxy : string -> option quote)
    (o : order) (req : request) (s : Store) :
  truthy (query_stock req) = false ->
  let answer :=
    match String_ (query_like req) with
    | Some _ => mkResponse 400 (JsonError "stock query param required")
    | None => mkResponse 500 (JsonError "external source error")
    end in
  run (ServerJs.handler proxy o req) s = (Ok answer, s)
  /\ run (ServerJs2.handler o req) s = (Ok answer, s).
Proof.
  intros H. cbv zeta.
  unfold ServerJs.handler, ServerJs2.handler, ServerJs.call_String, ServerJs2.call_String.
  rewrite H. destruct (String_ (query_like req)); split; reflexivity.
Qed.

Lemma missing_stock_rejected_before_store_witness :
  let req := mkRequest QUndefined (QString "true") (Some "1.2.3.4") None None in
  run (ServerJs.handler (fun _ => None) (mkOrder [] [] [] []) req) fresh
    = (Ok (mkResponse 400 (JsonError "stock query param required")), fresh)
  /\ run (ServerJs2.handler (mkOrder [] [] [] []) req) fresh
    = (Ok (mkResponse 400 (JsonError "stock query param required")), fresh).
Proof.
  apply (missing_stock_rejected_before_store (fun _ => None) (mkOrder [] [] [] [])
           (mkRequest QUndefined (QString "true") (Some "1.2.3.4") None None) fresh).
  reflexivity.
Defined.



Lemma like_flag_true (req : request) :
  like_flag req = true <-> like_is_true req.
Proof.
  unfold like_flag, like_is_true. destruct (String_ (query_like req)) as [sl|].
  - rewrite String.eqb_eq. split.
    + intros H. exists sl. split; [reflexivity | exact H].
    + intros [sl' [E H]]. injection E as <-. exact H.
  - split; [discriminate|]. intros [sl' [E _]]. discriminate E.
Qed.

Lemma like_flag_false (req : request) :
  like_flag req = false <-> ~ like_is_true req.
Proof.
  rewrite <- like_flag_true. destruct (like_flag req); split; congruence.
Qed.








(** How some values of [like] read: only the spellings of "true" do. *)
Lemma like_parameter_readings :
  let req like := mkRequest (QString "GOOG") like None None None in
  like_is_true (req (QString "true"))
  /\ like_is_true (req (QString "TRUE"))
  /\ like_is_true (req (QString "True"))
  /\ ~ like_is_true (req QUndefined)
  /\ ~ like_is_true (req (QString "1"))
  /\ ~ like_is_true (req (QString "yes"))
  /\ ~ like_is_true (req (QString ""))
  /\ ~ like_is_true (req (QString "true "))
  /\ ~ like_is_true (req (QArray [QString "true"; QString "true"]))
  /\ ~ like_is_true (req (QObject false))
  /\ ~ like_is_true (req (QObject true)).
Proof.
  cbv zeta.
  repeat split; try (apply like_flag_true; reflexivity);
    apply like_flag_false; reflexivity.
Qed.



(* ===================================================================== *)
(** ** The handler on two symbols *)
(* ===================================================================== *)

Lemma grows_refl (t : gmap string Row) : grows t t.
Proof. split; [reflexivity | auto]. Qed.

Lemma grows_trans (t1 t2 t3 : gmap string Row) : grows t1 t2 -> grows t2 t3 -> grows t1 t3.
Proof.
  intros [Hd1 Hi1] [Hd2 Hi2]. split; [etransitivity; eassumption | auto].
Qed.

Lemma update_like_ips (sym ip x : string) (t : gmap string Row) :
  forall ip', ip' ∈ ips_of t x -> ip' ∈ ips_of (update_like sym ip t) x.
Proof.
  intros ip' Hin. unfold ips_of in *. rewrite update_like_lookup.
  case_decide as Hx; [subst x|exact Hin].
  destruct (t !! sym) as [r|]; cbn in *; [|exact Hin].
  apply elem_of_app. left. exact Hin.
Qed.

Lemma grows_exec (q : stmt) (t : gmap string Row) : any_stmt q -> grows t (snd (exec q t)).
Proof.
  intros _. split; [apply exec_dom|]. intros x ip' Hin.
  destruct q as [sym|sym|sym ip|sym|]; cbn [exec snd]; try exact Hin.
  - rewrite insert_row_ips. exact Hin.
  - apply update_like_ips, Hin.
Qed.

Lemma same_rows_refl (t : gmap string Row) : same_rows t t.
Proof. intros x. split; reflexivity. Qed.

Lemma same_rows_trans (t1 t2 t3 : gmap string Row) :
  same_rows t1 t2 -> same_rows t2 t3 -> same_rows t1 t3.
Proof.
  intros H1 H2 x. destruct (H1 x) as [<- <-]. apply H2.
Qed.

Lemma same_rows_exec (q : stmt) (t : gmap string Row) :
  no_update q -> same_rows t (snd (exec q t)).
Proof.
  destruct q as [sym|sym|sym ip|sym|]; cbn [no_update exec snd]; intros Hq x;
    try (split; reflexivity); [|contradiction].
  split; [apply insert_row_likes | apply insert_row_ips].
Qed.

(** Whatever the other promises add to the table meanwhile,
    [likeStockIfNeeded] finds its row and does not throw. *)
Lemma like_safe (sym ip : string) (f : bool) (t : gmap string Row) :
  safe grows any_stmt (fun _ _ => True) (ServerJs2.likeStockIfNeeded sym ip f) t.
Proof.
  cbn. split; [exact I|]. intros t1 _.
  destruct f; cbn; [|auto].
  split; [exact I|]. intros t2 [H12 _].
  assert (Hin : sym ∈ dom t2).
  { apply H12. rewrite insert_row_dom. apply elem_of_union_l, elem_of_singleton. reflexivity. }
  apply elem_of_dom in Hin. destruct Hin as [r Hr]. rewrite Hr.
  destruct (includes (ips r) ip); cbn; [auto|].
  split; [exact I | auto].
Qed.

(** Whatever rows the other promises insert meanwhile, [getLikes]
    returns the like count of its symbol. *)
Lemma getLikes2_safe (sym : string) (t : gmap string Row) :
  safe same_rows no_update (fun l t' => l = likes_of t' sym) (ServerJs2.getLikes sym) t.
Proof.
  cbn. split; [exact I|]. intros t1 _. split; [exact I|]. intros t2 _ t3 H23.
  destruct (H23 sym) as [-> _]. unfold likes_of. destruct (t2 !! sym); reflexivity.
Qed.

Lemma getLikes1_safe (sym : string) (t : gmap string Row) :
  safe same_rows no_update (fun l t' => l = likes_of t' sym) (ServerJs.getLikes sym) t.
Proof.
  cbn. split; [exact I|]. intros t1 _ t2 H12.
  destruct (H12 sym) as [-> _]. unfold likes_of. destruct (t1 !! sym); reflexivity.
Qed.

Lemma getStockPrice2_safe (sym : string) (t : gmap string Row) :
  safe same_rows no_update (fun _ _ => True) (ServerJs2.getStockPrice sym) t.
Proof. cbn. auto. Qed.

Lemma getStockPrice1_safe (proxy : string -> option quote) (sym : string)
    (t : gmap string Row) :
  is_Some (proxy sym) ->
  safe same_rows no_update (fun _ _ => True) (ServerJs.getStockPrice proxy sym) t.
Proof. intros [d Hd]. unfold ServerJs.getStockPrice. rewrite Hd. cbn. auto. Qed.

(** The two likes under [Promise.all] return in every order. *)
Lemma likes_all2_return (sched : list bool) (symA symB ip : string) (f : bool) (s : Store) :
  exists s1,
    run (all2 sched (ServerJs2.likeStockIfNeeded symA ip f)
                    (ServerJs2.likeStockIfNeeded symB ip f)) s = (Ok (tt, tt), s1).
Proof.
  destruct (safe_run grows any_stmt grows_refl grows_trans grows_exec
              (fun (_ : unit * unit) _ => True /\ True)
              (all2 sched (ServerJs2.likeStockIfNeeded symA ip f)
                          (ServerJs2.likeStockIfNeeded symB ip f)) s)
    as ([[] []] & s1 & Hrun & _).
  { apply (safe_all2 grows any_stmt grows_refl grows_trans grows_exec
             (fun _ _ => True) (fun _ _ => True)); apply like_safe. }
  exists s1. exact Hrun.
Qed.

(** The prices and the counts under [Promise.all] return in every order,
    the counts being those of the table. *)
Lemma reads_all2_return {P : Type} (jo po co : list bool) (gpA gpB : prog P)
    (glA glB : prog Z) (symA symB : string) (s : Store) :
  safe same_rows no_update (fun _ _ => True) gpA (table s) ->
  safe same_rows no_update (fun _ _ => True) gpB (table s) ->
  safe same_rows no_update (fun l t' => l = likes_of t' symA) glA (table s) ->
  safe same_rows no_update (fun l t' => l = likes_of t' symB) glB (table s) ->
  exists a b s2,
    run (all2 jo (all2 po gpA gpB) (all2 co glA glB)) s
    = (Ok ((a, b), (likes_of (table s2) symA, likes_of (table s2) symB)), s2).
Proof.
  intros HpA HpB HlA HlB.
  destruct (safe_run same_rows no_update same_rows_refl same_rows_trans same_rows_exec
              (fun (r : (P * P) * (Z * Z)) t' =>
                 (True /\ True)
                 /\ (fst (snd r) = likes_of t' symA /\ snd (snd r) = likes_of t' symB))
              (all2 jo (all2 po gpA gpB) (all2 co glA glB)) s)
    as ([[a b] [lA lB]] & s2 & Hrun & Hpost & _).
  { apply (safe_all2 same_rows no_update same_rows_refl same_rows_trans same_rows_exec
             (fun (ab : P * P) _ => True /\ True)
             (fun (l : Z * Z) t' => fst l = likes_of t' symA /\ snd l = likes_of t' symB)).
    - apply (safe_all2 same_rows no_update same_rows_refl same_rows_trans same_rows_exec
               (fun _ _ => True) (fun _ _ => True)); assumption.
    - apply (safe_all2 same_rows no_update same_rows_refl same_rows_trans same_rows_exec
               (fun l t' => l = likes_of t' symA) (fun l t' => l = likes_of t' symB));
        assumption. }
  destruct (Hpost (table s2) (same_rows_refl _)) as [_ [HA HB]].
  cbn [fst snd] in HA, HB. subst lA lB.
  exists a, b, s2. exact Hrun.
Qed.

Lemma two_symbols_mirror2 (o : order) (req : request) (a b : qval) (rest : list qval)
    (sa sb : string) (s : Store) :
  query_stock req = QArray (a :: b :: rest) ->
  is_Some (String_ (query_like req)) ->
  String_ a = Some sa -> String_ b = Some sb ->
  rel_likes_mirror (run (ServerJs2.handler o req) s) (toUpperCase sa) (toUpperCase sb).
Proof.
  intros Hstock [sl Hsl] Ha Hb.
  unfold ServerJs2.handler, ServerJs2.call_String. rewrite Hstock, Hsl.
  cbn [truthy negb firstn length Nat.eqb nth bind]. rewrite Ha, Hb. cbn [bind].
  rewrite run_try_catch, run_bind.
  destruct (likes_all2_return (like_order o) (toUpperCase sa) (toUpperCase sb)
              (ServerJs2.getClientIP req) (String.eqb (toLowerCase sl) "true") s)
    as [s1 ->].
  rewrite run_bind.
  destruct (reads_all2_return (join_order o) (price_order o) (count_order o)
              (ServerJs2.getStockPrice (toUpperCase sa))
              (ServerJs2.getStockPrice (toUpperCase sb))
              (ServerJs2.getLikes (toUpperCase sa))
              (ServerJs2.getLikes (toUpperCase sb))
              (toUpperCase sa) (toUpperCase sb) s1)
    as (pa & pb & s2 & ->);
    auto using getStockPrice2_safe, getLikes2_safe.
  cbn [run fst snd]. unfold rel_likes_mirror. cbn [fst snd].
  eexists _, _. split; [reflexivity|]. cbn [rel_likes].
  split; [reflexivity|]. split; [reflexivity | lia].
Qed.

Lemma two_symbols_mirror1 (proxy : string -> option quote) (o : order) (req : request)
    (a b : qval) (rest : list qval) (sa sb : string) (s : Store) :
  query_stock req = QArray (a :: b :: rest) ->
  is_Some (String_ (query_like req)) ->
  String_ a = Some sa -> String_ b = Some sb ->
  is_Some (proxy (toUpperCase sa)) ->
  is_Some (proxy (toUpperCase sb)) ->
  rel_likes_mirror (run (ServerJs.handler proxy o req) s) (toUpperCase sa) (toUpperCase sb).
Proof.
  intros Hstock [sl Hsl] Ha Hb HA HB.
  unfold ServerJs.handler, ServerJs.call_String. rewrite Hstock, Hsl.
  cbn [truthy negb length Nat.eqb nth bind]. rewrite Ha, Hb. cbn [bind].
  rewrite run_try_catch, run_bind.
  destruct (likes_all2_return (like_order o) (toUpperCase sa) (toUpperCase sb)
              (ServerJs.getClientIP req) (String.eqb (toLowerCase sl) "true") s)
    as [s1 Hs1].
  rewrite like_same, Hs1, run_bind.
  destruct (reads_all2_return (join_order o) (price_order o) (count_order o)
              (ServerJs.getStockPrice proxy (toUpperCase sa))
              (ServerJs.getStockPrice proxy (toUpperCase sb))
              (ServerJs.getLikes (toUpperCase sa))
              (ServerJs.getLikes (toUpperCase sb))
              (toUpperCase sa) (toUpperCase sb) s1)
    as (pa & pb & s2 & ->);
    auto using getStockPrice1_safe, getLikes1_safe.
  cbn [run fst snd]. unfold rel_likes_mirror. cbn [fst snd].
  eexists _, _. split; [reflexivity|]. cbn [rel_likes].
  split; [reflexivity|]. split; [reflexivity | lia].
Qed.

(** C7.  On a request with two symbols A and B, the [String(..)] of
    [like] returning and those of the two stock values returning ASCII
    strings, the answer has two entries, whatever the order in which the
    database serves the joined promises: the first carries
    likes(A) - likes(B), the second likes(B) - likes(A), each the negation
    of the other; both copies (server.js when the quote proxy answers for
    both symbols). *)
Theorem two_symbols_rel_likes_mirror (o : order) (req : request) (a b : qval)
    (rest : list qval) (sa sb : string) (s : Store) :
  query_stock req = QArray (a :: b :: rest) ->
  is_Some (String_ (query_like req)) ->
  String_ a = Some sa -> String_ b = Some sb ->
  ascii_text sa = true -> ascii_text sb = true ->
  rel_likes_mirror (run (ServerJs2.handler o req) s) (toUpperCase sa) (toUpperCase sb)
  /\ forall proxy,
       is_Some (proxy (toUpperCase sa)) ->
       is_Some (proxy (toUpperCase sb)) ->
       rel_likes_mirror (run (ServerJs.handler proxy o req) s)
         (toUpperCase sa) (toUpperCase sb).
Proof.
  intros Hstock Hlike Ha Hb _ _. split.
  - apply two_symbols_mirror2 with a b rest; assumption.
  - intros proxy HA HB. apply two_symbols_mirror1 with a b rest; assumption.
Qed.

(** Counts 5 and 2 answer +3 and -3. *)
Lemma five_and_two_answer_three :
  let ipsA := ["1.1.1.1"; "2.2.2.2"; "3.3.3.3"; "4.4.4.4"; "5.5.5.5"] in
  let ipsB := ["1.1.1.1"; "2.2.2.2"] in
  let s := mkStore {[ "GOOG" := mkRow 5 ipsA; "MSFT" := mkRow 2 ipsB ]} [] in
  let req := mkRequest (QArray [QString "goog"; QString "msft"]) QUndefined
               (Some "9.9.9.9") None None in
  fst (run (ServerJs2.handler (mkOrder [false; true] [] [true; false; false] [false]) req) s)
  = Ok (mkResponse 200 (JsonStockData
          (Two (mkRel "GOOG" (Finite 100 1) 3) (mkRel "MSFT" (Finite 100 1) (-3))))).
Proof. vm_compute. reflexivity. Qed.

Lemma two_symbols_rel_likes_mirror_witness :
  let ipsA := ["1.1.1.1"; "2.2.2.2"; "3.3.3.3"; "4.4.4.4"; "5.5.5.5"] in
  let ipsB := ["1.1.1.1"; "2.2.2.2"] in
  let s := mkStore {[ "GOOG" := mkRow 5 ipsA; "MSFT" := mkRow 2 ipsB ]} [] in
  let req := mkRequest (QArray [QString "goog"; QString "msft"]) QUndefined
               (Some "9.9.9.9") None None in
  let o := mkOrder [false; true] [] [true; false; false] [false] in
  rel_likes_mirror (run (ServerJs2.handler o req) s) (toUpperCase "goog") (toUpperCase "msft")
  /\ forall proxy,
       is_Some (proxy (toUpperCase "goog")) ->
       is_Some (proxy (toUpperCase "msft")) ->
       rel_likes_mirror (run (ServerJs.handler proxy o req) s)
         (toUpperCase "goog") (toUpperCase "msft").
Proof.
  cbv zeta.
  apply two_symbols_rel_likes_mirror
    with (a := QString "goog") (b := QString "msft") (rest := []).
  - reflexivity.
  - exists "undefined". reflexivity.
  - reflexivity.
  - reflexivity.
  - reflexivity.
  - reflexivity.
Defined.

(* ===================================================================== *)
(** ** The handler on any request *)
(* ===================================================================== *)

Lemma like_sends (sym ip : string) (f : bool) :
  toUpperCase sym = sym ->
  sends (request_stmt f) (ServerJs2.likeStockIfNeeded sym ip f).
Proof.
  intros Hup. cbn. split; [split; [exact Hup | intros _; exact I]|].
  intros _. destruct f; cbn; [|exact I].
  split; [split; [exact Hup | intros _; exact I]|].
  intros [|row rows]; [exact I|].
  destruct (includes (ips row) ip); cbn; [exact I|].
  split; [split; [exact Hup | discriminate] | intros _; exact I].
Qed.

Lemma getLikes2_sends (sym : string) (f : bool) :
  toUpperCase sym = sym -> sends (request_stmt f) (ServerJs2.getLikes sym).
Proof.
  intros Hup. cbn. split; [split; [exact Hup | intros _; exact I]|].
  intros _. split; [split; [exact Hup | intros _; exact I] | intros _; exact I].
Qed.

Lemma getLikes1_sends (sym : string) (f : bool) :
  toUpperCase sym = sym -> sends (request_stmt f) (ServerJs.getLikes sym).
Proof.
  intros Hup. cbn. split; [split; [exact Hup | intros _; exact I] | intros _; exact I].
Qed.

Lemma getStockPrice1_sends (proxy : string -> option quote) (sym : string) (f : bool) :
  sends (request_stmt f) (ServerJs.getStockPrice proxy sym).
Proof. unfold ServerJs.getStockPrice. destruct (proxy sym); exact I. Qed.

(** Every statement the handler of the second copy can send for a
    request. *)
Lemma handler2_sends (o : order) (req : request) :
  sends (request_stmt (like_flag req)) (ServerJs2.handler o req).
Proof.
  unfold ServerJs2.handler, ServerJs2.call_String, like_flag.
  apply sends_try_catch; [|intros e; exact I].
  cbv zeta. destruct (String_ (query_like req)) as [sl|]; cbn [bind]; [|exact I].
  destruct (truthy (query_stock req)); cbn [negb]; [|exact I].
  destruct (Nat.eqb _ 1).
  - destruct (nth 0 _ QUndefined) as [|sym|l|own]; cbn [ServerJs2.call_toUpperCase bind];
      try exact I.
    apply sends_bind; [apply like_sends, toUpperCase_idem|]. intros _.
    apply sends_bind; [exact I|]. intros sp.
    apply sends_bind; [apply getLikes2_sends, toUpperCase_idem|]. intros likes. exact I.
  - destruct (String_ (nth 0 _ QUndefined)) as [sa|]; cbn [bind]; [|exact I].
    destruct (String_ (nth 1 _ QUndefined)) as [sb|]; cbn [bind]; [|exact I].
    apply sends_bind; [apply sends_all2; apply like_sends, toUpperCase_idem|]. intros _.
    apply sends_bind; [|intros r; exact I].
    apply sends_all2; apply sends_all2;
      solve [exact I | apply getLikes2_sends, toUpperCase_idem].
Qed.

Lemma handler1_sends (proxy : string -> option quote) (o : order) (req : request) :
  sends (request_stmt (like_flag req)) (ServerJs.handler proxy o req).
Proof.
  unfold ServerJs.handler, ServerJs.call_String, like_flag.
  apply sends_try_catch; [|intros e; exact I].
  cbv zeta. destruct (String_ (query_like req)) as [sl|]; cbn [bind]; [|exact I].
  destruct (truthy (query_stock req)); cbn [negb]; [|exact I].
  destruct (Nat.eqb _ 1).
  - destruct (nth 0 _ QUndefined) as [|sym|l|own]; cbn [ServerJs.call_toUpperCase bind];
      try exact I.
    apply sends_bind; [rewrite like_same; apply like_sends, toUpperCase_idem|]. intros _.
    apply sends_bind; [apply getStockPrice1_sends|]. intros sp.
    apply sends_bind; [apply getLikes1_sends, toUpperCase_idem|]. intros likes. exact I.
  - destruct (String_ (nth 0 _ QUndefined)) as [sa|]; cbn [bind]; [|exact I].
    destruct (String_ (nth 1 _ QUndefined)) as [sb|]; cbn [bind]; [|exact I].
    apply sends_bind;
      [rewrite like_same; apply sends_all2; apply like_sends, toUpperCase_idem|].
    intros _. apply sends_bind; [|intros r; exact I].
    apply sends_all2; apply sends_all2;
      solve [apply getStockPrice1_sends | apply getLikes1_sends, toUpperCase_idem].
Qed.

(** Whatever the request and whatever the order of service, every
    statement the handler has had served names an upper-case symbol. *)
Lemma handler_statements_upper_case (proxy : string -> option quote) (o : order)
    (req : request) (s : Store) :
  (exists l, served (snd (run (ServerJs.handler proxy o req) s)) = (served s ++ l)%list
             /\ Forall upper_stmt l)
  /\ (exists l, served (snd (run (ServerJs2.handler o req) s)) = (served s ++ l)%list
                /\ Forall upper_stmt l).
Proof.
  split.
  - apply sends_served.
    eapply sends_weaken; [|apply handler1_sends].
    intros q [Hq _]. exact Hq.
  - apply sends_served.
    eapply sends_weaken; [|apply handler2_sends].
    intros q [Hq _]. exact Hq.
Qed.


(** A request whose [String(like)] throws is answered by the [catch]
    block before anything else happens. *)
Lemma like_throws_answered_500 (proxy : string -> option quote) (o : order)
    (req : request) (s : Store) :
  String_ (query_like req) = None ->
  answered_500 (run (ServerJs2.handler o req) s) s
  /\ answered_500 (run (ServerJs.handler proxy o req) s) s.
Proof.
  intros E. unfold answered_500, ServerJs.handler, ServerJs2.handler,
    ServerJs.call_String, ServerJs2.call_String.
  rewrite E. split; reflexivity.
Qed.


(** Whatever the other promises do meanwhile, a requested like leaves
    the IP recorded for the symbol. *)
Lemma like_true_safe (sym ip : string) (t : gmap string Row) :
  safe grows any_stmt (fun _ t' => ip ∈ ips_of t' sym)
       (ServerJs2.likeStockIfNeeded sym ip true) t.
Proof.
  cbn. split; [exact I|]. intros t1 _.
  split; [exact I|]. intros t2 [H12 _].
  assert (Hin : sym ∈ dom t2).
  { apply H12. rewrite insert_row_dom. apply elem_of_union_l, elem_of_singleton. reflexivity. }
  apply elem_of_dom in Hin. destruct Hin as [r Hr]. rewrite Hr.
  destruct (includes (ips r) ip) eqn:E; cbn.
  - intros t3 [_ H23]. apply H23. unfold ips_of. rewrite Hr.
    apply includes_elem_of, E.
  - split; [exact I|]. intros t3 [H23 _] t4 [_ H34]. apply H34.
    assert (Hin : sym ∈ dom t3) by (apply H23, elem_of_dom; eauto).
    apply elem_of_dom in Hin. destruct Hin as [r3 Hr3].
    unfold ips_of. rewrite update_like_lookup, decide_True, Hr3 by reflexivity.
    cbn. apply elem_of_app. right. apply list_elem_of_singleton. reflexivity.
Qed.

Lemma run_catch_store {A : Type} (p : prog A) (a : A) (s : Store) :
  snd (run (try_catch p (fun _ => Ret a)) s) = snd (run p s).
Proof.
  rewrite run_try_catch. destruct (run p s) as [[x|e] s']; reflexivity.
Qed.

(** After the two likes, the rest of a two-symbol request changes no
    row, whether it returns or throws. *)
Lemma likes_then_reads {P : Type} (sched : list bool) (symA symB ip : string)
    (rest : prog P) (s : Store) :
  sends no_update rest ->
  ip ∈ ips_of (table (snd (run
         (all2 sched (ServerJs2.likeStockIfNeeded symA ip true)
                     (ServerJs2.likeStockIfNeeded symB ip true) ;; rest) s))) symA
  /\ ip ∈ ips_of (table (snd (run
         (all2 sched (ServerJs2.likeStockIfNeeded symA ip true)
                     (ServerJs2.likeStockIfNeeded symB ip true) ;; rest) s))) symB.
Proof.
  intros Hrest. rewrite run_bind.
  destruct (safe_run grows any_stmt grows_refl grows_trans grows_exec
              (fun (_ : unit * unit) t' => ip ∈ ips_of t' symA /\ ip ∈ ips_of t' symB)
              (all2 sched (ServerJs2.likeStockIfNeeded symA ip true)
                          (ServerJs2.likeStockIfNeeded symB ip true)) s)
    as (u & s1 & -> & Hpost & _).
  { apply (safe_all2 grows any_stmt grows_refl grows_trans grows_exec
             (fun _ t' => ip ∈ ips_of t' symA) (fun _ t' => ip ∈ ips_of t' symB));
      apply like_true_safe. }
  destruct (Hpost (table s1) (grows_refl _)) as [HA HB].
  pose proof (sends_keeps same_rows no_update rest
                same_rows_refl same_rows_trans same_rows_exec Hrest s1) as Hsame.
  destruct (Hsame symA) as [_ ->]. destruct (Hsame symB) as [_ ->]. auto.
Qed.

Lemma two_symbols_like_recorded (o : order) (req : request) (a b : qval)
    (rest : list qval) (sa sb : string) (s : Store) :
  query_stock req = QArray (a :: b :: rest) -> like_is_true req ->
  String_ a = Some sa -> String_ b = Some sb ->
  recorded_for_both req sa sb (snd (run (ServerJs2.handler o req) s))
  /\ forall proxy, recorded_for_both req sa sb (snd (run (ServerJs.handler proxy o req) s)).
Proof.
  intros Hstock [sl [Hsl Hlike]] Ha Hb. apply String.eqb_eq in Hlike.
  unfold recorded_for_both.
  split; [|intros proxy].
  - unfold ServerJs2.handler, ServerJs2.call_String. rewrite Hstock, Hsl.
    cbn [truthy negb firstn length Nat.eqb nth bind]. rewrite Ha, Hb, Hlike. cbn [bind].
    rewrite run_catch_store, <- getClientIP_same.
    apply likes_then_reads.
    apply sends_bind; [|intros r; exact I].
    apply sends_all2; apply sends_all2; try exact I;
      (eapply sends_weaken; [|apply (getLikes2_sends _ false), toUpperCase_idem]);
      intros q [_ Hq]; apply Hq; reflexivity.
  - unfold ServerJs.handler, ServerJs.call_String. rewrite Hstock, Hsl.
    cbn [truthy negb length Nat.eqb nth bind]. rewrite Ha, Hb, Hlike. cbn [bind].
    rewrite run_catch_store, like_same.
    apply likes_then_reads.
    apply sends_bind; [|intros r; exact I].
    apply sends_all2; apply sends_all2;
      (eapply sends_weaken;
       [|first [apply (getStockPrice1_sends proxy _ false)
               |apply (getLikes1_sends _ false), toUpperCase_idem]]);
      intros q [_ Hq]; apply Hq; reflexivity.
Qed.




(* ===================================================================== *)
(** ** One symbol at a time *)
(* ===================================================================== *)

(** X1.  A store operation on one symbol leaves the row of every other
    symbol as it is, a missing row included: [ensureRow],
    [likeStockIfNeeded] with any IP and flag, and [getLikes], in both
    copies. *)
Theorem operation_touches_one_symbol (c2 : call2) (c1 : call1) (x : string) (s : Store) :
  call2_symbol c2 <> x -> call1_symbol c1 <> x ->
  table (snd (run (call2_prog c2) s)) !! x = table s !! x
  /\ table (snd (run (call1_prog c1) s)) !! x = table s !! x.
Proof.
  intros Hx2 Hx1. split.
  - destruct c2 as [sym|sym ip f|sym]; cbn [call2_symbol call2_prog] in *.
    + rewrite run_ensureRow. cbn [snd table].
      rewrite insert_row_lookup, decide_False by exact Hx2. reflexivity.
    + rewrite run_like2. cbn [snd table].
      rewrite like_table_lookup, decide_False by exact Hx2. reflexivity.
    + rewrite run_bind, run_getLikes2. cbn [run snd table].
      rewrite insert_row_lookup, decide_False by exact Hx2. reflexivity.
  - destruct c1 as [sym ip f|sym]; cbn [call1_symbol call1_prog] in *.
    + rewrite run_like1. cbn [snd table].
      rewrite like_table_lookup, decide_False by exact Hx1. reflexivity.
    + rewrite run_bind, run_getLikes1. reflexivity.
Qed.

Lemma operation_touches_one_symbol_witness :
  let s := mkStore {[ "MSFT" := mkRow 2 ["1.1.1.1"; "2.2.2.2"] ]} [] in
  table (snd (run (call2_prog (Like2 "GOOG" "1.1.1.1" true)) s)) !! "MSFT" = table s !! "MSFT"
  /\ table (snd (run (call1_prog (Like1 "GOOG" "1.1.1.1" true)) s)) !! "MSFT"
     = table s !! "MSFT".
Proof.
  cbv zeta. apply operation_touches_one_symbol; discriminate.
Defined.

(** X2.  [getLikes] on a symbol that has a row returns the likes of that
    row and leaves the table exactly as it was; both copies. *)
Theorem getLikes_reads_existing_row (sym : string) (r : Row) (s : Store) :
  table s !! sym = Some r ->
  (fst (run (ServerJs.getLikes sym) s) = Ok (likes r)
   /\ table (snd (run (ServerJs.getLikes sym) s)) = table s)
  /\ (fst (run (ServerJs2.getLikes sym) s) = Ok (likes r)
      /\ table (snd (run (ServerJs2.getLikes sym) s)) = table s).
Proof.
  intros Hr. rewrite run_getLikes1, run_getLikes2. cbn [fst snd table].
  unfold likes_of. rewrite Hr. repeat split.
  apply insert_row_present with r, Hr.
Qed.

Lemma getLikes_reads_existing_row_witness :
  let s := mkStore {[ "GOOG" := mkRow 5 ["1.1.1.1"] ]} [] in
  (fst (run (ServerJs.getLikes "GOOG") s) = Ok 5
   /\ table (snd (run (ServerJs.getLikes "GOOG") s)) = table s)
  /\ (fst (run (ServerJs2.getLikes "GOOG") s) = Ok 5
      /\ table (snd (run (ServerJs2.getLikes "GOOG") s)) = table s).
Proof.
  cbv zeta.
  apply (getLikes_reads_existing_row "GOOG" (mkRow 5 ["1.1.1.1"])).
  reflexivity.
Defined.

Lemma run_like_each (sym : string) (l : list string) :
  forall s, fst (run (like_each sym l) s) = Ok tt
    /\ table (snd (run (like_each sym l) s))
       = fold_left (fun t ip => like_table sym ip true t) l (table s).
Proof.
  induction l as [|ip l IH]; intros s; [split; reflexivity|].
  cbn [like_each fold_left]. rewrite run_bind, run_like2.
  destruct (IH (mkStore (like_table sym ip true (table s))
                  (served s ++ like_stmts sym ip true (table s)))) as [H1 H2].
  split; [exact H1 | exact H2].
Qed.

Lemma size_add_new (ip : string) (X : gset string) :
  ip ∉ X -> size ({[ip]} ∪ X) = S (size X).
Proof.
  intros H. rewrite size_union.
  - rewrite size_singleton. reflexivity.
  - apply disjoint_singleton_l, H.
Qed.

Lemma fold_like_table_counts (sym : string) (l : list string) :
  forall t,
    likes_of (fold_left (fun t ip => like_table sym ip true t) l t) sym
    = likes_of t sym
      + Z.of_nat (size (list_to_set l ∖ list_to_set (ips_of t sym) : gset string))
    /\ (list_to_set (ips_of (fold_left (fun t ip => like_table sym ip true t) l t) sym)
        : gset string)
       = list_to_set (ips_of t sym) ∪ list_to_set l.
Proof.
  induction l as [|ip l IH]; intros t; cbn [fold_left list_to_set].
  - split.
    + rewrite difference_disjoint_L by apply disjoint_empty_l.
      rewrite size_empty. lia.
    + rewrite union_empty_r_L. reflexivity.
  - destruct (IH (like_table sym ip true t)) as [IHl IHs].
    rewrite IHl, IHs, like_table_likes, like_table_ips.
    rewrite !decide_True by reflexivity. cbn [andb].
    destruct (includes (ips_of t sym) ip) eqn:E; cbn [negb].
    + apply includes_elem_of in E. rewrite app_nil_r. split.
      * replace (({[ip]} ∪ list_to_set l) ∖ list_to_set (ips_of t sym) : gset string)
          with (list_to_set l ∖ list_to_set (ips_of t sym) : gset string)
          by (apply set_eq; intros y; rewrite !elem_of_difference, elem_of_union,
                elem_of_singleton, !elem_of_list_to_set;
              split; [tauto | intros [[->|?] ?]; tauto]).
        lia.
      * apply set_eq. intros y.
        rewrite !elem_of_union, elem_of_singleton, !elem_of_list_to_set.
        split; [tauto | intros [?|[->|?]]; tauto].
    + apply includes_not_elem_of in E. rewrite list_to_set_app_L. cbn [list_to_set].
      rewrite union_empty_r_L. split.
      * replace (({[ip]} ∪ list_to_set l) ∖ list_to_set (ips_of t sym) : gset string)
          with ({[ip]} ∪ (list_to_set l ∖ (list_to_set (ips_of t sym) ∪ {[ip]}))
                : gset string).
        -- rewrite size_add_new; [lia|].
           rewrite elem_of_difference, elem_of_union, elem_of_singleton. tauto.
        -- apply set_eq. intros y.
           rewrite !elem_of_union, !elem_of_difference, !elem_of_union,
             !elem_of_singleton, !elem_of_list_to_set.
           destruct (decide (y = ip)) as [->|Hy]; tauto.
      * apply set_eq. intros y.
        rewrite !elem_of_union, elem_of_singleton, !elem_of_list_to_set. tauto.
Qed.

(** X3.  Likes of one symbol from a list of IPs, one call after the
    other: the count rises by the number of distinct IPs of the list that
    were not recorded before, whatever repetitions the list has, and the
    recorded IPs are the earlier ones with those of the list. *)
Theorem likes_count_new_distinct_ips (sym : string) (l : list string) (s : Store) :
  let s' := snd (run (like_each sym l) s) in
  fst (run (like_each sym l) s) = Ok tt
  /\ likes_of (table s') sym
     = likes_of (table s) sym
       + Z.of_nat (size (list_to_set l ∖ list_to_set (ips_of (table s) sym) : gset string))
  /\ (list_to_set (ips_of (table s') sym) : gset string)
     = list_to_set (ips_of (table s) sym) ∪ list_to_set l.
Proof.
  cbv zeta. destruct (run_like_each sym l s) as [H1 H2]. rewrite H2.
  split; [exact H1 | apply fold_like_table_counts].
Qed.

(* ===================================================================== *)
(** ** The client IP *)
(* ===================================================================== *)

Lemma comma_code (c : ascii) : Nat.eqb (nat_of_ascii c) 44 = Ascii.eqb "," c.
Proof. destruct c as [[] [] [] [] [] [] [] []]; reflexivity. Qed.

Lemma split_comma_0_no_comma (s : string) : has_char "," (split_comma_0 s) = false.
Proof.
  induction s as [|c s IH]; cbn [split_comma_0 has_char]; [reflexivity|].
  rewrite comma_code. destruct (Ascii.eqb "," c) eqn:E; [reflexivity|].
  cbn [has_char]. rewrite E, IH. reflexivity.
Qed.

Lemma trimStart_has_char (c : ascii) (s : string) :
  has_char c s = false -> has_char c (trimStart s) = false.
Proof.
  induction s as [|d s IH]; cbn [trimStart has_char]; [auto|].
  intros H. apply orb_false_iff in H. destruct H as [Hd Hs].
  destruct (is_space d); [apply IH, Hs|]. cbn [has_char]. rewrite Hd, Hs. reflexivity.
Qed.

Lemma trimEnd_has_char (c : ascii) (s : string) :
  has_char c s = false -> has_char c (trimEnd s) = false.
Proof.
  induction s as [|d s IH]; cbn [trimEnd has_char]; [auto|].
  intros H. apply orb_false_iff in H. destruct H as [Hd Hs].
  specialize (IH Hs). destruct (trimEnd s) as [|e r].
  - destruct (is_space d); cbn [has_char]; [reflexivity|]. rewrite Hd. reflexivity.
  - cbn [has_char] in *. rewrite Hd. exact IH.
Qed.

Lemma trimStart_first (s : string) (c : ascii) :
  first_char (trimStart s) = Some c -> is_space c = false.
Proof.
  induction s as [|d s IH]; cbn [trimStart first_char]; [discriminate|].
  destruct (is_space d) eqn:E; [exact IH|]. cbn [first_char]. intros [= <-]. exact E.
Qed.

Lemma trimEnd_first_inv (s : string) (c : ascii) :
  first_char (trimEnd s) = Some c -> first_char s = Some c.
Proof.
  destruct s as [|d s]; cbn [trimEnd first_char]; [discriminate|].
  destruct (trimEnd s); [destruct (is_space d); [discriminate|]|]; cbn [first_char]; auto.
Qed.

Lemma trimEnd_last (s : string) (c : ascii) :
  last_char (trimEnd s) = Some c -> is_space c = false.
Proof.
  induction s as [|d s IH]; cbn [trimEnd last_char]; [discriminate|].
  destruct (trimEnd s) as [|e r].
  - destruct (is_space d) eqn:E; cbn [last_char]; [discriminate|]. intros [= <-]. exact E.
  - intros H. apply IH. exact H.
Qed.

Lemma is_space_white_space (c : ascii) : is_space c = true <-> white_space c.
Proof.
  unfold white_space.
  destruct c as [[] [] [] [] [] [] [] []]; vm_compute; split; intros H;
    solve [reflexivity | discriminate H | tauto
          | repeat (destruct H as [H|H]; [discriminate H|]); contradiction H].
Qed.

Lemma not_space_not_white_space (c : ascii) : is_space c = false -> ~ white_space c.
Proof.
  intros H Hw. apply is_space_white_space in Hw. congruence.
Qed.

(** X4.  With a non-empty X-Forwarded-For header the client IP is the
    part of the header before the first comma with the white space around
    it removed, whatever the connection address and [req.ip] are: it
    holds no comma and neither starts nor ends with a white space
    character, the no-break space U+00A0 included; both copies. *)
Theorem client_ip_from_header (req : request) (xf : string) :
  x_forwarded_for req = Some xf -> xf <> "" ->
  let ip := ServerJs.getClientIP req in
  ip = ServerJs2.getClientIP req
  /\ ip = trim (split_comma_0 xf)
  /\ has_char "," ip = false
  /\ (forall c, first_char ip = Some c -> ~ white_space c)
  /\ (forall c, last_char ip = Some c -> ~ white_space c).
Proof.
  intros Hxf Hne. cbv zeta. unfold ServerJs.getClientIP. rewrite Hxf.
  apply String.eqb_neq in Hne. rewrite Hne.
  split; [unfold ServerJs2.getClientIP; rewrite Hxf, Hne; reflexivity|].
  split; [reflexivity|]. unfold trim. split; [|split].
  - apply trimEnd_has_char, trimStart_has_char, split_comma_0_no_comma.
  - intros c Hc. apply not_space_not_white_space.
    apply trimEnd_first_inv in Hc. apply trimStart_first in Hc. exact Hc.
  - intros c Hc. apply not_space_not_white_space. apply trimEnd_last in Hc. exact Hc.
Qed.

Lemma client_ip_from_header_witness :
  let req := mkRequest (QString "GOOG") QUndefined (Some "  1.2.3.4 , 10.0.0.1") (Some "9.9.9.9") None in
  let ip := ServerJs.getClientIP req in
  ip = ServerJs2.getClientIP req
  /\ ip = "1.2.3.4"
  /\ has_char "," ip = false
  /\ (forall c, first_char ip = Some c -> ~ white_space c)
  /\ (forall c, last_char ip = Some c -> ~ white_space c).
Proof.
  cbv zeta.
  apply (client_ip_from_header
           (mkRequest (QString "GOOG") QUndefined (Some "  1.2.3.4 , 10.0.0.1")
              (Some "9.9.9.9") None)
           "  1.2.3.4 , 10.0.0.1"); [reflexivity | discriminate].
Defined.

Lemma or_else_nonempty (a : option string) (b : string) : b <> "" -> or_else a b <> "".
Proof.
  intros Hb. destruct a as [s|]; cbn; [|exact Hb].
  destruct (String.eqb s "") eqn:E; [exact Hb | apply String.eqb_neq, E].
Qed.

(** X5.  Without the header, or with an empty one, the client IP is
    never the empty string: it is the connection address when there is a
    non-empty one, else [req.ip] when non-empty, else "0.0.0.0"; both
    copies. *)
Theorem client_ip_without_header (req : request) :
  x_forwarded_for req = None \/ x_forwarded_for req = Some "" ->
  let ip := ServerJs.getClientIP req in
  ip = ServerJs2.getClientIP req
  /\ ip <> ""
  /\ (forall a, remoteAddress req = Some a -> a <> "" -> ip = a)
  /\ (remoteAddress req = None \/ remoteAddress req = Some "" ->
      (forall b, req_ip req = Some b -> b <> "" -> ip = b)
      /\ (req_ip req = None \/ req_ip req = Some "" -> ip = "0.0.0.0")).
Proof.
  intros Hxf. cbv zeta.
  assert (Hip : ServerJs.getClientIP req
                = or_else (remoteAddress req) (or_else (req_ip req) "0.0.0.0")).
  { unfold ServerJs.getClientIP. destruct Hxf as [-> | ->]; reflexivity. }
  split; [rewrite <- getClientIP_same; reflexivity|].
  rewrite Hip. split; [apply or_else_nonempty, or_else_nonempty; discriminate|].
  split.
  - intros a -> Ha. cbn. apply String.eqb_neq in Ha. rewrite Ha. reflexivity.
  - intros Hra.
    assert (Hr : or_else (remoteAddress req) (or_else (req_ip req) "0.0.0.0")
                 = or_else (req_ip req) "0.0.0.0")
      by (destruct Hra as [-> | ->]; reflexivity).
    rewrite Hr. split.
    + intros b -> Hb. cbn. apply String.eqb_neq in Hb. rewrite Hb. reflexivity.
    + intros [-> | ->]; reflexivity.
Qed.

Lemma client_ip_without_header_witness :
  let req := mkRequest (QString "GOOG") QUndefined None (Some "") (Some "10.1.1.1") in
  let ip := ServerJs.getClientIP req in
  ip = ServerJs2.getClientIP req
  /\ ip <> ""
  /\ (forall a, remoteAddress req = Some a -> a <> "" -> ip = a)
  /\ (remoteAddress req = None \/ remoteAddress req = Some "" ->
      (forall b, req_ip req = Some b -> b <> "" -> ip = b)
      /\ (req_ip req = None \/ req_ip req = Some "" -> ip = "0.0.0.0")).
Proof.
  cbv zeta. apply client_ip_without_header. left. reflexivity.
Defined.

(* ===================================================================== *)
(** ** Shapes of the stock parameter *)
(* ===================================================================== *)

(** X6.  Of three or more stocks only the first two are used: the
    handler runs the same program as for the request with those two; both
    copies. *)
Theorem stocks_beyond_two_ignored (o : order) (req : request) (a b : qval)
    (rest : list qval) :
  query_stock req = QArray (a :: b :: rest) ->
  ServerJs2.handler o req = ServerJs2.handler o (with_stock (QArray [a; b]) req)
  /\ forall proxy,
       ServerJs.handler proxy o req
       = ServerJs.handler proxy o (with_stock (QArray [a; b]) req).
Proof.
  intros H. unfold ServerJs2.handler, ServerJs.handler. rewrite H.
  split; [|intros proxy]; reflexivity.
Qed.

Lemma stocks_beyond_two_ignored_witness :
  let req := mkRequest (QArray [QString "goog"; QString "msft"; QString "aapl"])
               (QString "true") (Some "1.2.3.4") None None in
  let o := mkOrder [true; false] [] [] [] in
  ServerJs2.handler o req
  = ServerJs2.handler o (with_stock (QArray [QString "goog"; QString "msft"]) req)
  /\ forall proxy,
       ServerJs.handler proxy o req
       = ServerJs.handler proxy o (with_stock (QArray [QString "goog"; QString "msft"]) req).
Proof.
  cbv zeta. apply stocks_beyond_two_ignored with (rest := [QString "aapl"]). reflexivity.
Defined.

(** X7.  A single non-empty stock sent as a one-element array is handled
    as the same stock sent as a string: the handler runs the same
    program; both copies. *)
Theorem one_element_array_is_its_element (o : order) (req : request) (sym : string) :
  sym <> "" ->
  ServerJs2.handler o (with_stock (QArray [QString sym]) req)
  = ServerJs2.handler o (with_stock (QString sym) req)
  /\ forall proxy,
       ServerJs.handler proxy o (with_stock (QArray [QString sym]) req)
       = ServerJs.handler proxy o (with_stock (QString sym) req).
Proof.
  intros H. apply String.eqb_neq in H.
  unfold ServerJs2.handler, ServerJs.handler. cbn [with_stock query_stock truthy].
  rewrite H. split; [|intros proxy]; reflexivity.
Qed.

Lemma one_element_array_is_its_element_witness :
  let req := mkRequest QUndefined (QString "true") (Some "1.2.3.4") None None in
  let o := mkOrder [] [] [] [] in
  ServerJs2.handler o (with_stock (QArray [QString "goog"]) req)
  = ServerJs2.handler o (with_stock (QString "goog") req)
  /\ forall proxy,
       ServerJs.handler proxy o (with_stock (QArray [QString "goog"]) req)
       = ServerJs.handler proxy o (with_stock (QString "goog") req).
Proof.
  cbv zeta. apply one_element_array_is_its_element. discriminate.
Defined.

(* ===================================================================== *)
(** ** What a program can return *)
(* ===================================================================== *)

Lemma returns_weaken {A : Type} (P Q : A -> Prop) (p : prog A) :
  (forall a, P a -> Q a) -> returns P p -> returns Q p.
Proof.
  intros HPQ. induction p as [a|e|q k IH]; cbn; [apply HPQ | auto |].
  intros H r. apply IH, H.
Qed.

Lemma returns_bind {A B : Type} (P : A -> Prop) (Q : B -> Prop)
    (p : prog A) (f : A -> prog B) :
  returns P p -> (forall a, P a -> returns Q (f a)) -> returns Q (bind p f).
Proof.
  intros Hp Hf. induction p as [a|e|q k IH]; cbn in *; [apply Hf, Hp | exact I |].
  intros r. apply IH, Hp.
Qed.

Lemma returns_drain {A B : Type} (Q : B -> Prop) (p : prog A) (e : error) :
  returns Q (drain p e).
Proof. induction p as [a|e'|q k IH]; cbn; auto. Qed.

Lemma returns_left_first {A B : Type} (P : A -> Prop) (Q : B -> Prop)
    (p : prog A) (q : prog B) :
  returns P p -> returns Q q ->
  returns (fun ab => P (fst ab) /\ Q (snd ab)) (left_first p q).
Proof.
  intros Hp Hq. induction p as [a|e|qa ka IH]; cbn in *.
  - apply returns_bind with (P := Q); [exact Hq|]. intros b Hb. cbn. auto.
  - apply returns_drain.
  - intros r. apply IH, Hp.
Qed.

Lemma returns_all2 {A B : Type} (P : A -> Prop) (Q : B -> Prop) (sched : list bool) :
  forall (p : prog A) (q : prog B),
    returns P p -> returns Q q ->
    returns (fun ab => P (fst ab) /\ Q (snd ab)) (all2 sched p q).
Proof.
  assert (Hl : forall a (q : prog B), P a -> returns Q q ->
            returns (fun ab => P (fst ab) /\ Q (snd ab)) (bind q (fun b => Ret (a, b)))).
  { intros a q Ha Hq. apply returns_bind with (P := Q); [exact Hq|].
    intros b Hb. cbn. auto. }
  assert (Hr : forall b (p : prog A), Q b -> returns P p ->
            returns (fun ab => P (fst ab) /\ Q (snd ab)) (bind p (fun a => Ret (a, b)))).
  { intros b p Hb Hp. apply returns_bind with (P := P); [exact Hp|].
    intros a Ha. cbn. auto. }
  induction sched as [|b sched IH]; intros p q Hp Hq.
  - destruct p as [a|e|qa ka], q as [b|e'|qb kb]; try exact I.
    + cbn in *. auto.
    + apply (Hl a (Await qb kb) Hp Hq).
    + apply (returns_drain _ (Await qb kb) e).
    + apply (Hr b (Await qa ka) Hq Hp).
    + apply (returns_drain _ (Await qa ka) e').
    + apply (returns_left_first P Q (Await qa ka) (Await qb kb) Hp Hq).
  - destruct p as [a|e|qa ka], q as [b'|e'|qb kb]; try exact I.
    + cbn in *. auto.
    + apply (Hl a (Await qb kb) Hp Hq).
    + apply (returns_drain _ (Await qb kb) e).
    + apply (Hr b' (Await qa ka) Hq Hp).
    + apply (returns_drain _ (Await qa ka) e').
    + destruct b; cbn; intros r; apply IH; solve [assumption | apply Hp | apply Hq].
Qed.

Lemma answers_try_catch {A : Type} (P : A -> Prop) (p : prog A) (h : error -> prog A) :
  returns P p -> (forall e, answers P (h e)) -> answers P (try_catch p h).
Proof.
  intros Hp Hh. induction p as [a|e|q k IH]; cbn in *; [exact Hp | apply Hh |].
  intros r. apply IH, Hp.
Qed.

Lemma answers_run {A : Type} (P : A -> Prop) (p : prog A) :
  answers P p -> forall s, exists a, fst (run p s) = Ok a /\ P a.
Proof.
  induction p as [a|e|q k IH]; cbn; intros Hp s; [eauto | contradiction |].
  apply IH, Hp.
Qed.

Lemma returns_any {A : Type} (p : prog A) : returns (fun _ => True) p.
Proof. induction p as [a|e|q k IH]; cbn; auto. Qed.

(* ===================================================================== *)
(** ** Every request is answered *)
(* ===================================================================== *)

Lemma toUpperCase_upper (s : string) : upper (toUpperCase s).
Proof. apply toUpperCase_idem. Qed.

Lemma shaped_400 (price_ok : number -> Prop) (req : request) :
  is_Some (String_ (query_like req)) -> truthy (query_stock req) = false ->
  shaped price_ok req (mkResponse 400 (JsonError "stock query param required")).
Proof.
  intros [sl Hsl] Ht. unfold shaped. cbn [json status]. rewrite Hsl, Ht. auto.
Qed.

Lemma shaped_500 (price_ok : number -> Prop) (req : request) :
  String_ (query_like req) = None \/ truthy (query_stock req) = true ->
  shaped price_ok req (mkResponse 500 (JsonError "external source error")).
Proof.
  intros H. unfold shaped. cbn [json status].
  destruct (String_ (query_like req)) as [sl|]; [|auto].
  destruct H as [H|H]; [discriminate | rewrite H; auto].
Qed.

Lemma handler2_answers (o : order) (req : request) :
  answers (shaped (fun p => p = Finite 100 1) req) (ServerJs2.handler o req).
Proof.
  unfold ServerJs2.handler, ServerJs2.call_String. cbv zeta.
  destruct (String_ (query_like req)) as [sl|] eqn:Hsl; cbn [bind].
  2:{ cbn [try_catch answers]. apply shaped_500. left. exact Hsl. }
  assert (Hret : is_Some (String_ (query_like req))) by (rewrite Hsl; eexists; reflexivity).
  destruct (truthy (query_stock req)) eqn:Ht; cbn [negb].
  2:{ cbn [try_catch answers]. apply shaped_400; assumption. }
  assert (Hpass : passes_checks req) by (split; assumption).
  apply answers_try_catch.
  2:{ intros e. cbn [answers]. apply shaped_500. right. exact Ht. }
  destruct (Nat.eqb _ 1).
  - destruct (nth 0 _ QUndefined) as [|sym|l|own]; cbn [ServerJs2.call_toUpperCase bind];
      try exact I.
    apply returns_bind with (P := fun _ => True); [apply returns_any|]. intros _ _.
    cbn [ServerJs2.getStockPrice bind].
    apply returns_bind with (P := fun _ => True); [apply returns_any|]. intros likes _.
    cbn. unfold shaped. cbn. auto using toUpperCase_upper.
  - destruct (String_ (nth 0 _ QUndefined)) as [sa|]; cbn [bind]; [|exact I].
    destruct (String_ (nth 1 _ QUndefined)) as [sb|]; cbn [bind]; [|exact I].
    apply returns_bind with (P := fun _ => True); [apply returns_any|]. intros _ _.
    apply returns_bind with
      (P := fun r : (string * number) * (string * number) * (Z * Z) =>
              ((upper (fst (fst (fst r))) /\ snd (fst (fst r)) = Finite 100 1)
               /\ (upper (fst (snd (fst r))) /\ snd (snd (fst r)) = Finite 100 1))
              /\ (True /\ True)).
    + apply (returns_all2
               (fun ab : (string * number) * (string * number) =>
                  (upper (fst (fst ab)) /\ snd (fst ab) = Finite 100 1)
                  /\ (upper (fst (snd ab)) /\ snd (snd ab) = Finite 100 1))
               (fun _ : Z * Z => True /\ True)).
      * apply (returns_all2
                 (fun a : string * number => upper (fst a) /\ snd a = Finite 100 1)
                 (fun a : string * number => upper (fst a) /\ snd a = Finite 100 1));
          cbn; auto using toUpperCase_upper.
      * apply (returns_all2 (fun _ : Z => True) (fun _ : Z => True));
          apply returns_any.
    + intros r [[[Ha1 Ha2] [Hb1 Hb2]] _]. cbn. unfold shaped. cbn.
      repeat split; auto; try apply Hpass. lia.
Qed.

Lemma getStockPrice1_returns (proxy : string -> option quote) (sym : string) :
  returns (fun a : string * number => upper (fst a) /\ True)
          (ServerJs.getStockPrice proxy sym).
Proof.
  unfold ServerJs.getStockPrice. destruct (proxy sym); cbn; auto using toUpperCase_upper.
Qed.

Lemma handler1_answers (proxy : string -> option quote) (o : order) (req : request) :
  answers (shaped (fun _ => True) req) (ServerJs.handler proxy o req).
Proof.
  unfold ServerJs.handler, ServerJs.call_String. cbv zeta.
  destruct (String_ (query_like req)) as [sl|] eqn:Hsl; cbn [bind].
  2:{ cbn [try_catch answers]. apply shaped_500. left. exact Hsl. }
  assert (Hret : is_Some (String_ (query_like req))) by (rewrite Hsl; eexists; reflexivity).
  destruct (truthy (query_stock req)) eqn:Ht; cbn [negb].
  2:{ cbn [try_catch answers]. apply shaped_400; assumption. }
  assert (Hpass : passes_checks req) by (split; assumption).
  apply answers_try_catch.
  2:{ intros e. cbn [answers]. apply shaped_500. right. exact Ht. }
  destruct (Nat.eqb _ 1).
  - destruct (nth 0 _ QUndefined) as [|sym|l|own]; cbn [ServerJs.call_toUpperCase bind];
      try exact I.
    apply returns_bind with (P := fun _ => True); [apply returns_any|]. intros _ _.
    apply returns_bind with (P := fun a : string * number => upper (fst a) /\ True);
      [apply getStockPrice1_returns|]. intros sp [Hsp _].
    apply returns_bind with (P := fun _ => True); [apply returns_any|]. intros likes _.
    cbn. unfold shaped. cbn. auto.
  - destruct (String_ (nth 0 _ QUndefined)) as [sa|]; cbn [bind]; [|exact I].
    destruct (String_ (nth 1 _ QUndefined)) as [sb|]; cbn [bind]; [|exact I].
    apply returns_bind with (P := fun _ => True); [apply returns_any|]. intros _ _.
    apply returns_bind with
      (P := fun r : (string * number) * (string * number) * (Z * Z) =>
              ((upper (fst (fst (fst r))) /\ True)
               /\ (upper (fst (snd (fst r))) /\ True))
              /\ (True /\ True)).
    + apply (returns_all2
               (fun ab : (string * number) * (string * number) =>
                  (upper (fst (fst ab)) /\ True) /\ (upper (fst (snd ab)) /\ True))
               (fun _ : Z * Z => True /\ True)).
      * apply (returns_all2
                 (fun a : string * number => upper (fst a) /\ True)
                 (fun a : string * number => upper (fst a) /\ True));
          apply getStockPrice1_returns.
      * apply (returns_all2 (fun _ : Z => True) (fun _ : Z => True));
          apply returns_any.
    + intros r [[[Ha1 _] [Hb1 _]] _]. cbn. unfold shaped. cbn.
      repeat split; auto; try apply Hpass. lia.
Qed.

(** X8.  Every request is answered, whatever it holds and in whatever
    order the database serves its statements; the handler never rejects.
    When [String(like)] throws the answer is 500 "external source error".
    When it returns, the answer is 400 "stock query param required"
    exactly when [stock] is missing or empty; otherwise it is 500
    "external source error" or 200 with stock data, where every stock
    name is in upper case and the two [rel_likes] of a two-symbol answer
    add up to zero.  In the second copy every price is 100. *)
Theorem every_request_answered (o : order) (req : request) (s : Store) :
  (exists resp, fst (run (ServerJs2.handler o req) s) = Ok resp
                /\ shaped (fun p => p = Finite 100 1) req resp)
  /\ forall proxy,
       exists resp, fst (run (ServerJs.handler proxy o req) s) = Ok resp
                    /\ shaped (fun _ => True) req resp.
Proof.
  split; [|intros proxy]; apply answers_run;
    [apply handler2_answers | apply handler1_answers].
Qed.

(* ===================================================================== *)
(** ** When the answer is 500 *)
(* ===================================================================== *)

Lemma all2_throw_l {A B : Type} (sched : list bool) (e : error) (q : prog B) :
  all2 (A := A) sched (Throw e) q = drain q e.
Proof. destruct sched; reflexivity. Qed.

Lemma all2_ret_throw {A B : Type} (sched : list bool) (a : A) (e : error) :
  all2 (B := B) sched (Ret a) (Throw e) = Throw e.
Proof. destruct sched; reflexivity. Qed.

Lemma run_drain {A B : Type} (p : prog A) (e : error) :
  forall s, fst (run (drain (B := B) p e) s) = Err e.
Proof.
  induction p as [a|e'|q k IH]; intros s; cbn; try reflexivity. apply IH.
Qed.

(** X9.  A conversion that throws is answered 500 "external source
    error" before anything is sent to the store, which is left exactly as
    it was: [String(like)] of an object with its own [toString], a single
    stock value that is not a string, or [String(..)] throwing on one of
    two stock values; both copies. *)
Theorem conversion_error_answered_500 (o : order) (req : request) (s : Store) :
  throws_before_store req ->
  answered_500 (run (ServerJs2.handler o req) s) s
  /\ forall proxy, answered_500 (run (ServerJs.handler proxy o req) s) s.
Proof.
  intros [Hlike | [Ht Hstock]].
  - split; [|intros proxy]; apply (like_throws_answered_500 (fun _ => None) o req s Hlike)
                            || apply (like_throws_answered_500 proxy o req s Hlike).
  - destruct (String_ (query_like req)) as [sl|] eqn:Hsl.
    2:{ split; [|intros proxy]; apply (like_throws_answered_500 (fun _ => None) o req s Hsl)
                                || apply (like_throws_answered_500 proxy o req s Hsl). }
    unfold answered_500, ServerJs.handler, ServerJs2.handler,
      ServerJs.call_String, ServerJs2.call_String.
    rewrite Hsl, Ht. cbn [bind negb].
    destruct (query_stock req) as [|sym|l|own]; cbn [is_string] in Hstock;
      try discriminate Hstock; try (split; [|intros proxy]; reflexivity).
    destruct l as [|a [|b rest]].
    + cbn in Hstock. destruct Hstock; discriminate.
    + cbn [firstn length Nat.eqb nth].
      destruct a as [|sym|l'|own]; cbn [is_string] in Hstock; try discriminate Hstock;
        (split; [|intros proxy]; reflexivity).
    + cbn [firstn length Nat.eqb nth] in *.
      destruct (String_ a) as [sa|]; cbn [bind];
        [|split; [|intros proxy]; reflexivity].
      destruct (String_ b) as [sb|]; cbn [bind];
        [|split; [|intros proxy]; reflexivity].
      destruct Hstock; discriminate.
Qed.

Lemma conversion_error_answered_500_witness :
  let req := mkRequest (QArray [QObject true; QString "msft"]) (QString "true")
               (Some "1.2.3.4") None None in
  let o := mkOrder [] [] [] [] in
  answered_500 (run (ServerJs2.handler o req) fresh) fresh
  /\ forall proxy, answered_500 (run (ServerJs.handler proxy o req) fresh) fresh.
Proof.
  cbv zeta.
  apply (conversion_error_answered_500 (mkOrder [] [] [] [])
           (mkRequest (QArray [QObject true; QString "msft"]) (QString "true")
              (Some "1.2.3.4") None None) fresh).
  right. split; [reflexivity|]. left. reflexivity.
Defined.

Lemma prices_fail (proxy : string -> option quote) (sched : list bool) (symA symB : string) :
  proxy symA = None \/ proxy symB = None ->
  all2 sched (ServerJs.getStockPrice proxy symA) (ServerJs.getStockPrice proxy symB)
  = Throw RequestFailed.
Proof.
  unfold ServerJs.getStockPrice. intros [H|H]; rewrite H.
  - rewrite all2_throw_l. destruct (proxy symB); reflexivity.
  - destruct (proxy symA); [apply all2_ret_throw | rewrite all2_throw_l; reflexivity].
Qed.

(** X10.  In server.js a quote that cannot be fetched for the one
    symbol of a request, an ASCII string, whose [String(like)] returns,
    makes the answer 500 after the like has been recorded: the table is
    the one the like leaves, the count is not read (no SELECT of the
    count is sent), and a requested like from a new IP has raised the
    count by one. *)
Theorem failed_quote_keeps_like (proxy : string -> option quote) (o : order)
    (req : request) (sym : string) (s : Store) :
  query_stock req = QString sym -> sym <> "" -> ascii_text sym = true ->
  is_Some (String_ (query_like req)) ->
  proxy (toUpperCase sym) = None ->
  let U := toUpperCase sym in
  let ip := ServerJs.getClientIP req in
  let f := like_flag req in
  let r := run (ServerJs.handler proxy o req) s in
  r = (Ok (mkResponse 500 (JsonError "external source error")),
       mkStore (like_table U ip f (table s)) (served s ++ like_stmts U ip f (table s)))
  /\ (like_is_true req -> ip ∉ ips_of (table s) U ->
      likes_of (table (snd r)) U = likes_of (table s) U + 1
      /\ ips_of (table (snd r)) U = (ips_of (table s) U ++ [ip])%list).
Proof.
  intros Hstock Hsym _ Hret Hfail. cbv zeta.
  rewrite (run_handler1_single proxy o req sym s Hstock Hsym Hret), Hfail.
  split; [reflexivity|]. intros Hlike Hnew.
  apply like_flag_true in Hlike. apply includes_not_elem_of in Hnew.
  cbn [snd table]. rewrite like_table_likes, like_table_ips.
  rewrite !decide_True by reflexivity. rewrite Hlike, Hnew. auto.
Qed.

Lemma failed_quote_keeps_like_witness :
  let req := mkRequest (QString "goog") (QString "true") (Some "1.2.3.4") None None in
  let o := mkOrder [] [] [] [] in
  let proxy := fun _ : string => @None quote in
  let r := run (ServerJs.handler proxy o req) fresh in
  r = (Ok (mkResponse 500 (JsonError "external source error")),
       mkStore {[ "GOOG" := mkRow 1 ["1.2.3.4"] ]}
               [InsertRow "GOOG"; SelectLikesIps "GOOG"; UpdateLike "GOOG" "1.2.3.4"])
  /\ (like_is_true req -> ServerJs.getClientIP req ∉ ips_of (table fresh) "GOOG" ->
      likes_of (table (snd r)) "GOOG" = likes_of (table fresh) "GOOG" + 1
      /\ ips_of (table (snd r)) "GOOG" = (ips_of (table fresh) "GOOG" ++ ["1.2.3.4"])%list).
Proof.
  cbv zeta.
  apply (failed_quote_keeps_like (fun _ => None) (mkOrder [] [] [] [])
           (mkRequest (QString "goog") (QString "true") (Some "1.2.3.4") None None)
           "goog" fresh);
    [reflexivity | discriminate | reflexivity | exists "true"; reflexivity | reflexivity].
Defined.

(** X11.  In server.js, on a request with two symbols whose [String(..)]
    return ASCII strings, a quote that cannot be fetched for either makes
    the answer 500 in every order of service, and a like that was
    requested is recorded for both symbols all the same. *)
Theorem failed_quote_of_two_keeps_likes (proxy : string -> option quote) (o : order)
    (req : request) (a b : qval) (rest : list qval) (sa sb : string) (s : Store) :
  query_stock req = QArray (a :: b :: rest) ->
  is_Some (String_ (query_like req)) ->
  String_ a = Some sa -> String_ b = Some sb ->
  ascii_text sa = true -> ascii_text sb = true ->
  proxy (toUpperCase sa) = None \/ proxy (toUpperCase sb) = None ->
  fst (run (ServerJs.handler proxy o req) s)
    = Ok (mkResponse 500 (JsonError "external source error"))
  /\ (like_is_true req ->
      recorded_for_both req sa sb (snd (run (ServerJs.handler proxy o req) s))).
Proof.
  intros Hstock [sl Hsl] Ha Hb _ _ Hfail. split.
  - unfold ServerJs.handler, ServerJs.call_String. rewrite Hstock, Hsl.
    cbn [truthy negb length Nat.eqb nth bind]. rewrite Ha, Hb. cbn [bind].
    rewrite run_try_catch, run_bind.
    destruct (likes_all2_return (like_order o) (toUpperCase sa) (toUpperCase sb)
                (ServerJs.getClientIP req) (String.eqb (toLowerCase sl) "true") s)
      as [s1 Hs1].
    rewrite like_same, Hs1, run_bind, (prices_fail proxy _ _ _ Hfail), all2_throw_l.
    pose proof (run_drain (B := (string * number) * (string * number) * (Z * Z))
                  (all2 (count_order o) (ServerJs.getLikes (toUpperCase sa))
                     (ServerJs.getLikes (toUpperCase sb)))
                  RequestFailed s1) as Hd.
    destruct (run (drain _ _) s1) as [[x|e] s2]; cbn in Hd; [discriminate|].
    reflexivity.
  - intros Hlike.
    apply (two_symbols_like_recorded o req a b rest sa sb s Hstock Hlike Ha Hb).
Qed.

Lemma failed_quote_of_two_keeps_likes_witness :
  let req := mkRequest (QArray [QString "goog"; QString "msft"]) (QString "true")
               (Some "1.2.3.4") None None in
  let o := mkOrder [true; false; false] [] [false] [] in
  let proxy := fun sym : string =>
                 if String.eqb sym "GOOG" then Some (mkQuote (Some "GOOG") (Finite 100 1))
                 else None in
  fst (run (ServerJs.handler proxy o req) fresh)
    = Ok (mkResponse 500 (JsonError "external source error"))
  /\ (like_is_true req ->
      recorded_for_both req "goog" "msft"
        (snd (run (ServerJs.handler proxy o req) fresh))).
Proof.
  cbv zeta.
  apply failed_quote_of_two_keeps_likes
    with (a := QString "goog") (b := QString "msft") (rest := []).
  - reflexivity.
  - exists "true". reflexivity.
  - reflexivity.
  - reflexivity.
  - reflexivity.
  - reflexivity.
  - right. reflexivity.
Defined.

(* ===================================================================== *)
(** ** Nothing is taken back *)
(* ===================================================================== *)

Lemma never_less_refl (t : gmap string Row) : never_less t t.
Proof.
  split; [reflexivity|]. intros x. split; [lia|]. exists []. rewrite app_nil_r. reflexivity.
Qed.

Lemma never_less_trans (t1 t2 t3 : gmap string Row) :
  never_less t1 t2 -> never_less t2 t3 -> never_less t1 t3.
Proof.
  intros [Hd1 H1] [Hd2 H2]. split; [etransitivity; eassumption|].
  intros x. destruct (H1 x) as [Hl1 [e1 He1]]. destruct (H2 x) as [Hl2 [e2 He2]].
  split; [lia|]. exists (e1 ++ e2)%list. rewrite He2, He1, app_assoc. reflexivity.
Qed.

Lemma never_less_exec (q : stmt) (t : gmap string Row) :
  any_stmt q -> never_less t (snd (exec q t)).
Proof.
  intros _. split; [apply exec_dom|]. intros x.
  destruct q as [sym|sym|sym ip|sym|]; cbn [exec snd];
    try (split; [lia | exists []; rewrite app_nil_r; reflexivity]).
  - rewrite insert_row_likes, insert_row_ips.
    split; [lia | exists []; rewrite app_nil_r; reflexivity].
  - unfold likes_of, ips_of. rewrite update_like_lookup.
    case_decide as Hx; [subst x|split; [lia | exists []; rewrite app_nil_r; reflexivity]].
    destruct (t !! sym) as [r|]; cbn.
    + split; [lia | exists [ip]; reflexivity].
    + split; [lia | exists []; reflexivity].
Qed.

Lemma sends_any {A : Type} (p : prog A) : sends any_stmt p.
Proof.
  induction p as [a|e|q k IH]; cbn; auto. split; [exact I | auto].
Qed.

(** X12.  Nothing the handler does is taken back, whatever the request
    and the order of service: after it every row that existed is still
    there, no like count is lower, and the IPs recorded for a symbol are
    the earlier ones, in place, with possibly more behind them.  The same
    holds of the store operations on their own; both copies. *)
Theorem handler_never_takes_back (o : order) (req : request) (s : Store) :
  never_less (table s) (table (snd (run (ServerJs2.handler o req) s)))
  /\ (forall proxy, never_less (table s) (table (snd (run (ServerJs.handler proxy o req) s))))
  /\ (forall c, never_less (table s) (table (snd (run (call2_prog c) s))))
  /\ (forall c, never_less (table s) (table (snd (run (call1_prog c) s)))).
Proof.
  repeat split; intros;
    apply (sends_keeps never_less any_stmt _
             never_less_refl never_less_trans never_less_exec), sends_any.
Qed.

(* ===================================================================== *)
(** ** One like for each forwarded address *)
(* ===================================================================== *)

Lemma like_is_true_returns (req : request) :
  like_is_true req -> is_Some (String_ (query_like req)).
Proof. intros [sl [E _]]. rewrite E. eexists. reflexivity. Qed.

Lemma handler_one_symbol_table (o : order) (req : request) (sym : string) (s : Store) :
  query_stock req = QString sym -> sym <> "" ->
  is_Some (String_ (query_like req)) ->
  table (snd (run (ServerJs2.handler o req) s))
    = like_table (toUpperCase sym) (ServerJs.getClientIP req) (like_flag req) (table s)
  /\ forall proxy,
       table (snd (run (ServerJs.handler proxy o req) s))
       = like_table (toUpperCase sym) (ServerJs.getClientIP req) (like_flag req) (table s).
Proof.
  intros Hstock Hsym Hret. split; [|intros proxy].
  - rewrite (run_handler2_single o req sym s Hstock Hsym Hret). reflexivity.
  - rewrite (run_handler1_single proxy o req sym s Hstock Hsym Hret).
    destruct (proxy (toUpperCase sym)); reflexivity.
Qed.

(** X13.  Likes are told apart by the first entry of X-Forwarded-For
    alone, not by the connection: two requests that like the same ASCII
    symbol with headers whose first entries, trimmed, differ, neither recorded
    yet, raise the count by two, whatever their connection addresses are,
    the same one included; both copies. *)
Theorem forwarded_addresses_like_twice (o1 o2 : order) (req1 req2 : request)
    (sym h1 h2 : string) (s : Store) :
  query_stock req1 = QString sym -> query_stock req2 = QString sym -> sym <> "" ->
  ascii_text sym = true ->
  like_is_true req1 -> like_is_true req2 ->
  x_forwarded_for req1 = Some h1 -> x_forwarded_for req2 = Some h2 ->
  h1 <> "" -> h2 <> "" ->
  trim (split_comma_0 h1) <> trim (split_comma_0 h2) ->
  trim (split_comma_0 h1) ∉ ips_of (table s) (toUpperCase sym) ->
  trim (split_comma_0 h2) ∉ ips_of (table s) (toUpperCase sym) ->
  likes_of (table (snd (run (ServerJs2.handler o2 req2)
                          (snd (run (ServerJs2.handler o1 req1) s))))) (toUpperCase sym)
    = likes_of (table s) (toUpperCase sym) + 2
  /\ forall proxy,
       likes_of (table (snd (run (ServerJs.handler proxy o2 req2)
                               (snd (run (ServerJs.handler proxy o1 req1) s)))))
                (toUpperCase sym)
       = likes_of (table s) (toUpperCase sym) + 2.
Proof.
  intros Hs1 Hs2 Hsym _ Hl1 Hl2 Hx1 Hx2 Hh1 Hh2 Hdiff Hn1 Hn2.
  pose proof (like_is_true_returns req1 Hl1) as Hr1.
  pose proof (like_is_true_returns req2 Hl2) as Hr2.
  apply like_flag_true in Hl1, Hl2.
  assert (Hip1 : ServerJs.getClientIP req1 = trim (split_comma_0 h1)).
  { unfold ServerJs.getClientIP. rewrite Hx1.
    apply String.eqb_neq in Hh1. rewrite Hh1. reflexivity. }
  assert (Hip2 : ServerJs.getClientIP req2 = trim (split_comma_0 h2)).
  { unfold ServerJs.getClientIP. rewrite Hx2.
    apply String.eqb_neq in Hh2. rewrite Hh2. reflexivity. }
  assert (Hcount : likes_of
            (like_table (toUpperCase sym) (trim (split_comma_0 h2)) true
               (like_table (toUpperCase sym) (trim (split_comma_0 h1)) true (table s)))
            (toUpperCase sym)
          = likes_of (table s) (toUpperCase sym) + 2).
  { rewrite !like_table_likes, like_table_ips. rewrite !decide_True by reflexivity.
    apply includes_not_elem_of in Hn1. rewrite Hn1. cbn [andb negb].
    assert (Hn : includes (ips_of (table s) (toUpperCase sym) ++ [trim (split_comma_0 h1)])
                   (trim (split_comma_0 h2)) = false).
    { apply includes_not_elem_of. rewrite elem_of_app, list_elem_of_singleton.
      intros [H|H]; [contradiction | congruence]. }
    rewrite Hn. cbn [negb]. lia. }
  split; [|intros proxy].
  - destruct (handler_one_symbol_table o2 req2 sym
                (snd (run (ServerJs2.handler o1 req1) s)) Hs2 Hsym Hr2) as [-> _].
    destruct (handler_one_symbol_table o1 req1 sym s Hs1 Hsym Hr1) as [-> _].
    rewrite Hl1, Hl2, Hip1, Hip2. exact Hcount.
  - destruct (handler_one_symbol_table o2 req2 sym
                (snd (run (ServerJs.handler proxy o1 req1) s)) Hs2 Hsym Hr2) as [_ H2].
    rewrite H2.
    destruct (handler_one_symbol_table o1 req1 sym s Hs1 Hsym Hr1) as [_ H1].
    rewrite H1, Hl1, Hl2, Hip1, Hip2. exact Hcount.
Qed.

Lemma forwarded_addresses_like_twice_witness :
  let req1 := mkRequest (QString "goog") (QString "true") (Some "1.1.1.1") (Some "9.9.9.9") None in
  let req2 := mkRequest (QString "goog") (QString "true") (Some "2.2.2.2, 1.1.1.1") (Some "9.9.9.9") None in
  let o := mkOrder [] [] [] [] in
  likes_of (table (snd (run (ServerJs2.handler o req2)
                          (snd (run (ServerJs2.handler o req1) fresh))))) (toUpperCase "goog")
    = likes_of (table fresh) (toUpperCase "goog") + 2
  /\ forall proxy,
       likes_of (table (snd (run (ServerJs.handler proxy o req2)
                               (snd (run (ServerJs.handler proxy o req1) fresh)))))
                (toUpperCase "goog")
       = likes_of (table fresh) (toUpperCase "goog") + 2.
Proof.
  cbv zeta.
  apply forwarded_addresses_like_twice with (h1 := "1.1.1.1") (h2 := "2.2.2.2, 1.1.1.1").
  - reflexivity.
  - reflexivity.
  - discriminate.
  - reflexivity.
  - exists "true". split; reflexivity.
  - exists "true". split; reflexivity.
  - reflexivity.
  - reflexivity.
  - discriminate.
  - discriminate.
  - vm_compute. discriminate.
  - vm_compute. intros H. inversion H.
  - vm_compute. intros H. inversion H.
Defined.

(* ===================================================================== *)
(** ** Promises that rely on each other *)
(* ===================================================================== *)

Lemma safe_rg_later (R G : gmap string Row -> gmap string Row -> Prop)
    {A : Type} (Post : A -> gmap string Row -> Prop) (p : prog A) t t' :
  (forall t1 t2 t3, R t1 t2 -> R t2 t3 -> R t1 t3) ->
  R t t' -> safe_rg R G Post p t -> safe_rg R G Post p t'.
Proof.
  intros Htrans Htt'. destruct p as [a|e|q k]; cbn; [|tauto|].
  - intros H t'' Ht''. apply H. eauto.
  - intros H t'' Ht''. apply H. eauto.
Qed.

Section SafeRgFacts.

Variables R1 G1 R2 G2 : gmap string Row -> gmap string Row -> Prop.
Hypothesis R1_refl : forall t, R1 t t.
Hypothesis R2_refl : forall t, R2 t t.
Hypothesis R1_trans : forall t1 t2 t3, R1 t1 t2 -> R1 t2 t3 -> R1 t1 t3.
Hypothesis R2_trans : forall t1 t2 t3, R2 t1 t2 -> R2 t2 t3 -> R2 t1 t3.
Hypothesis G1_R2 : forall t t', G1 t t' -> R2 t t'.
Hypothesis G2_R1 : forall t t', G2 t t' -> R1 t t'.

Lemma safe_rg_pair_l {A B : Type} (PA : A -> gmap string Row -> Prop)
    (PB : B -> gmap string Row -> Prop) (p : prog A) (b : B) :
  forall t,
    safe_rg R1 G1 PA p t -> (forall t', R2 t t' -> PB b t') ->
    safe_rg (fun t t' => R1 t t' /\ R2 t t') (fun t t' => G1 t t' \/ G2 t t')
            (fun ab t' => PA (fst ab) t' /\ PB (snd ab) t')
            (bind p (fun a => Ret (a, b))) t.
Proof.
  induction p as [a|e|q k IH]; intros t Hp Hb; cbn in *.
  - intros t' [H1 H2]. auto.
  - contradiction.
  - intros t' [H1 H2]. destruct (Hp t' H1) as [Hg Hk]. split; [left; exact Hg|].
    apply IH; [exact Hk|]. intros t'' H''. apply Hb.
    apply R2_trans with t'; [exact H2|].
    apply R2_trans with (snd (exec q t')); [apply G1_R2, Hg | exact H''].
Qed.

Lemma safe_rg_pair_r {A B : Type} (PA : A -> gmap string Row -> Prop)
    (PB : B -> gmap string Row -> Prop) (a : A) (q : prog B) :
  forall t,
    (forall t', R1 t t' -> PA a t') -> safe_rg R2 G2 PB q t ->
    safe_rg (fun t t' => R1 t t' /\ R2 t t') (fun t t' => G1 t t' \/ G2 t t')
            (fun ab t' => PA (fst ab) t' /\ PB (snd ab) t')
            (bind q (fun b => Ret (a, b))) t.
Proof.
  induction q as [b|e|q k IH]; intros t Ha Hq; cbn in *.
  - intros t' [H1 H2]. auto.
  - contradiction.
  - intros t' [H1 H2]. destruct (Hq t' H2) as [Hg Hk]. split; [right; exact Hg|].
    apply IH; [|exact Hk]. intros t'' H''. apply Ha.
    apply R1_trans with t'; [exact H1|].
    apply R1_trans with (snd (exec q t')); [apply G2_R1, Hg | exact H''].
Qed.

Lemma safe_rg_left_first {A B : Type} (PA : A -> gmap string Row -> Prop)
    (PB : B -> gmap string Row -> Prop) (p : prog A) (q : prog B) :
  forall t,
    safe_rg R1 G1 PA p t -> safe_rg R2 G2 PB q t ->
    safe_rg (fun t t' => R1 t t' /\ R2 t t') (fun t t' => G1 t t' \/ G2 t t')
            (fun ab t' => PA (fst ab) t' /\ PB (snd ab) t')
            (left_first p q) t.
Proof.
  induction p as [a|e|qa ka IH]; intros t Hp Hq; cbn [left_first].
  - apply safe_rg_pair_r; [exact Hp | exact Hq].
  - contradiction.
  - cbn in Hp |- *. intros t' [H1 H2]. destruct (Hp t' H1) as [Hg Hk].
    split; [left; exact Hg|]. apply IH; [exact Hk|].
    apply (safe_rg_later R2 G2 PB q t); [exact R2_trans | | exact Hq].
    apply R2_trans with t'; [exact H2 | apply G1_R2, Hg].
Qed.

(** Two promises, each safe as long as the other keeps to its
    guarantee, are safe together under [Promise.all] in every order of
    service. *)
Lemma safe_rg_all2 {A B : Type} (PA : A -> gmap string Row -> Prop)
    (PB : B -> gmap string Row -> Prop) (sched : list bool) :
  forall (p : prog A) (q : prog B) t,
    safe_rg R1 G1 PA p t -> safe_rg R2 G2 PB q t ->
    safe_rg (fun t t' => R1 t t' /\ R2 t t') (fun t t' => G1 t t' \/ G2 t t')
            (fun ab t' => PA (fst ab) t' /\ PB (snd ab) t')
            (all2 sched p q) t.
Proof.
  induction sched as [|b sched IH]; intros p q t Hp Hq.
  - destruct p as [a|e|qa ka], q as [b|e'|qb kb]; cbn in Hp, Hq; try contradiction.
    + cbn. intros t' [H1 H2]. auto.
    + apply (safe_rg_pair_r PA PB a (Await qb kb) t Hp Hq).
    + apply (safe_rg_pair_l PA PB (Await qa ka) b t Hp Hq).
    + apply (safe_rg_left_first PA PB (Await qa ka) (Await qb kb) t Hp Hq).
  - destruct p as [a|e|qa ka], q as [b'|e'|qb kb]; cbn in Hp, Hq; try contradiction.
    + cbn. intros t' [H1 H2]. auto.
    + apply (safe_rg_pair_r PA PB a (Await qb kb) t Hp Hq).
    + apply (safe_rg_pair_l PA PB (Await qa ka) b' t Hp Hq).
    + destruct b; cbn; intros t' [H1 H2].
      * destruct (Hp t' H1) as [Hg Hk]. split; [left; exact Hg|].
        apply IH; [exact Hk|].
        apply (safe_rg_later R2 G2 PB (Await qb kb) t); [exact R2_trans | | exact Hq].
        apply R2_trans with t'; [exact H2 | apply G1_R2, Hg].
      * destruct (Hq t' H2) as [Hg Hk]. split; [right; exact Hg|].
        apply IH; [|exact Hk].
        apply (safe_rg_later R1 G1 PA (Await qa ka) t); [exact R1_trans | | exact Hp].
        apply R1_trans with t'; [exact H1 | apply G2_R1, Hg].
Qed.

End SafeRgFacts.

(** A safe promise run with nobody else returns, and what every step
    guarantees holds from the first table to the last. *)
Lemma safe_rg_run (R G T : gmap string Row -> gmap string Row -> Prop)
    {A : Type} (Post : A -> gmap string Row -> Prop) (p : prog A) :
  (forall t, R t t) -> (forall t, T t t) ->
  (forall t1 t2 t3, T t1 t2 -> T t2 t3 -> T t1 t3) ->
  (forall t t', G t t' -> T t t') ->
  forall s, safe_rg R G Post p (table s) ->
    exists a s', run p s = (Ok a, s') /\ Post a (table s') /\ T (table s) (table s').
Proof.
  intros Rrefl Trefl Ttrans GT.
  induction p as [a|e|q k IH]; intros s Hp.
  - exists a, s. cbn in *. auto.
  - contradiction.
  - destruct (Hp (table s) (Rrefl _)) as [Hg Hk].
    destruct (IH _ (snd (serve q s)) Hk) as (a & s' & Hrun & Hpost & HT).
    exists a, s'. split; [exact Hrun|]. split; [exact Hpost|].
    apply Ttrans with (snd (exec q (table s))); [apply GT, Hg | exact HT].
Qed.

(* ===================================================================== *)
(** ** Likes of different symbols under Promise.all *)
(* ===================================================================== *)

Lemma keeps_row_refl (sym : string) (t : gmap string Row) : keeps_row sym t t.
Proof. reflexivity. Qed.

Lemma keeps_row_trans (sym : string) (t1 t2 t3 : gmap string Row) :
  keeps_row sym t1 t2 -> keeps_row sym t2 t3 -> keeps_row sym t1 t3.
Proof. unfold keeps_row. congruence. Qed.

Lemma only_row_keeps (symA symB : string) (t t' : gmap string Row) :
  symA <> symB -> only_row symA t t' -> keeps_row symB t t'.
Proof. intros Hne H. apply H. congruence. Qed.

(** As long as nobody else touches the row of its symbol,
    [likeStockIfNeeded] touches no other row and leaves its row as it
    does when run alone. *)
Lemma like_rg (sym ip : string) (f : bool) (t : gmap string Row) :
  safe_rg (keeps_row sym) (only_row sym)
          (fun _ t' => t' !! sym = like_table sym ip f t !! sym)
          (ServerJs2.likeStockIfNeeded sym ip f) t.
Proof.
  assert (Hrow : forall t1, keeps_row sym t t1 ->
            insert_row sym t1 !! sym = Some (mkRow (likes_of t sym) (ips_of t sym))).
  { intros t1 H1. rewrite insert_row_lookup, decide_True by reflexivity.
    unfold likes_of, ips_of. rewrite H1. reflexivity. }
  cbn -[like_table]. intros t1 H1. split.
  { intros x Hx. rewrite insert_row_lookup, decide_False by congruence. reflexivity. }
  destruct f; cbn -[like_table].
  2:{ intros t2 H2. rewrite H2, (Hrow t1 H1), like_table_lookup, decide_True by reflexivity.
      reflexivity. }
  intros t2 H2. split; [intros x Hx; reflexivity|].
  rewrite H2, (Hrow t1 H1). cbn -[like_table].
  destruct (includes (ips_of t sym) ip) eqn:E; cbn -[like_table].
  - intros t3 H3. rewrite H3, H2, (Hrow t1 H1), like_table_lookup, decide_True, E
      by reflexivity. reflexivity.
  - intros t3 H3. split.
    { intros x Hx. rewrite update_like_lookup, decide_False by congruence. reflexivity. }
    intros t4 H4. rewrite H4, update_like_lookup, decide_True, H3, H2, (Hrow t1 H1)
      by reflexivity.
    rewrite like_table_lookup, decide_True, E by reflexivity. reflexivity.
Qed.

Lemma only_rows_refl (a b : string) (t : gmap string Row) : only_rows a b t t.
Proof. intros x _ _. reflexivity. Qed.

Lemma only_rows_trans (a b : string) (t1 t2 t3 : gmap string Row) :
  only_rows a b t1 t2 -> only_rows a b t2 t3 -> only_rows a b t1 t3.
Proof. intros H1 H2 x Ha Hb. rewrite H2, H1 by assumption. reflexivity. Qed.

(** Two likes of different symbols under [Promise.all], run from [s]. *)
Lemma likes_of_two_symbols (sched : list bool) (symA symB ipA ipB : string)
    (fA fB : bool) (s : Store) :
  symA <> symB ->
  exists s',
    run (all2 sched (ServerJs2.likeStockIfNeeded symA ipA fA)
                    (ServerJs2.likeStockIfNeeded symB ipB fB)) s = (Ok (tt, tt), s')
    /\ table s' = like_table symA ipA fA (like_table symB ipB fB (table s)).
Proof.
  intros Hne.
  destruct (safe_rg_run
              (fun t t' => keeps_row symA t t' /\ keeps_row symB t t')
              (fun t t' => only_row symA t t' \/ only_row symB t t')
              (only_rows symA symB)
              (fun (_ : unit * unit) t' =>
                 t' !! symA = like_table symA ipA fA (table s) !! symA
                 /\ t' !! symB = like_table symB ipB fB (table s) !! symB)
              (all2 sched (ServerJs2.likeStockIfNeeded symA ipA fA)
                          (ServerJs2.likeStockIfNeeded symB ipB fB)))
    with (s := s) as ([[] []] & s' & Hrun & [HA HB] & HT).
  - intros t. split; reflexivity.
  - apply only_rows_refl.
  - apply only_rows_trans.
  - intros t t' [H|H] x Ha Hb; apply H; assumption.
  - apply (safe_rg_all2 (keeps_row symA) (only_row symA) (keeps_row symB) (only_row symB)
             (keeps_row_trans symA) (keeps_row_trans symB)
             (fun t t' => only_row_keeps symA symB t t' Hne)
             (fun t t' => only_row_keeps symB symA t t' (not_eq_sym Hne))
             (fun _ t' => t' !! symA = like_table symA ipA fA (table s) !! symA)
             (fun _ t' => t' !! symB = like_table symB ipB fB (table s) !! symB));
      apply like_rg.
  - exists s'. split; [exact Hrun|]. apply map_eq. intros x.
    rewrite like_table_lookup. case_decide as HxA; [subst x|].
    + rewrite HA, like_table_lookup, decide_True by reflexivity.
      rewrite like_table_likes, like_table_ips, !decide_False by congruence. reflexivity.
    + destruct (decide (symB = x)) as [HxB|HxB].
      * subst x. exact HB.
      * rewrite like_table_lookup, decide_False by exact HxB. apply HT; congruence.
Qed.

Lemma like_tables_commute (symA symB ipA ipB : string) (fA fB : bool)
    (t : gmap string Row) :
  symA <> symB ->
  like_table symA ipA fA (like_table symB ipB fB t)
  = like_table symB ipB fB (like_table symA ipA fA t).
Proof.
  intros Hne. apply map_eq. intros x. rewrite !like_table_lookup.
  rewrite !like_table_likes, !like_table_ips.
  rewrite (decide_False (P := symB = symA)) by congruence.
  rewrite (decide_False (P := symA = symB)) by congruence.
  repeat case_decide; subst; try reflexivity; congruence.
Qed.

(** X14.  Two [likeStockIfNeeded] calls for different symbols started
    together, with any IPs and flags: in every order of service both
    return and the table is the one they leave when run one after the
    other, in either order.  Different symbols do not race. *)
Theorem likes_of_different_symbols_do_not_race (sched : list bool)
    (symA symB ipA ipB : string) (fA fB : bool) (s : Store) :
  symA <> symB ->
  let r := run (all2 sched (ServerJs.likeStockIfNeeded symA ipA fA)
                           (ServerJs.likeStockIfNeeded symB ipB fB)) s in
  fst r = Ok (tt, tt)
  /\ table (snd r)
     = table (snd (run (ServerJs.likeStockIfNeeded symA ipA fA ;;
                        ServerJs.likeStockIfNeeded symB ipB fB) s))
  /\ table (snd r)
     = table (snd (run (ServerJs.likeStockIfNeeded symB ipB fB ;;
                        ServerJs.likeStockIfNeeded symA ipA fA) s)).
Proof.
  intros Hne. cbv zeta. rewrite like_same.
  destruct (likes_of_two_symbols sched symA symB ipA ipB fA fB s Hne) as (s' & -> & Ht).
  cbn [fst snd]. rewrite Ht, !run_bind, !run_like2. cbn [snd table].
  split; [reflexivity|]. split; [apply like_tables_commute, Hne | reflexivity].
Qed.

Lemma likes_of_different_symbols_do_not_race_witness :
  let r := run (all2 [true; false; true; false]
                  (ServerJs.likeStockIfNeeded "GOOG" "1.2.3.4" true)
                  (ServerJs.likeStockIfNeeded "MSFT" "1.2.3.4" true)) fresh in
  fst r = Ok (tt, tt)
  /\ table (snd r)
     = table (snd (run (ServerJs.likeStockIfNeeded "GOOG" "1.2.3.4" true ;;
                        ServerJs.likeStockIfNeeded "MSFT" "1.2.3.4" true) fresh))
  /\ table (snd r)
     = table (snd (run (ServerJs.likeStockIfNeeded "MSFT" "1.2.3.4" true ;;
                        ServerJs.likeStockIfNeeded "GOOG" "1.2.3.4" true) fresh)).
Proof.
  cbv zeta. apply likes_of_different_symbols_do_not_race. discriminate.
Defined.

(* ===================================================================== *)
(** ** Likes of one symbol from different IPs under Promise.all *)
(* ===================================================================== *)

Lemma extends_without_refl (sym : string) (c0 : Z) (l0 : list string)
    (ip1 ip2 ip : string) (t : gmap string Row) :
  extends_without sym c0 l0 ip1 ip2 ip t t.
Proof. repeat split; auto. Qed.

Lemma extends_without_trans (sym : string) (c0 : Z) (l0 : list string)
    (ip1 ip2 ip : string) (t1 t2 t3 : gmap string Row) :
  extends_without sym c0 l0 ip1 ip2 ip t1 t2 ->
  extends_without sym c0 l0 ip1 ip2 ip t2 t3 ->
  extends_without sym c0 l0 ip1 ip2 ip t1 t3.
Proof.
  intros (Ha & Hb & Hc) (Ha' & Hb' & Hc'). repeat split; auto.
  - intros H. apply Hc, Hc', H.
  - intros H. apply Hc', Hc, H.
Qed.

Lemma insert_row_extends (sym : string) (c0 : Z) (l0 : list string)
    (ip1 ip2 ip : string) (t : gmap string Row) :
  extends_without sym c0 l0 ip1 ip2 ip t (insert_row sym t).
Proof.
  unfold extends_without, extended. rewrite insert_row_ips, insert_row_likes.
  split; [auto|]. split; [|tauto].
  intros [r Hr]. exists r. apply insert_row_keeps, Hr.
Qed.

Lemma update_like_extends (sym : string) (c0 : Z) (l0 : list string)
    (ip1 ip2 me you : string) (t : gmap string Row) :
  me = ip1 \/ me = ip2 -> me <> you -> me ∉ ips_of t sym ->
  extends_without sym c0 l0 ip1 ip2 you t (update_like sym me t).
Proof.
  intros Hme Hne Hnew. unfold extends_without, extended, likes_of, ips_of in *.
  rewrite update_like_lookup, decide_True by reflexivity.
  destruct (t !! sym) as [r|] eqn:Hr; cbn; [|repeat split; auto].
  split; [|split; [eauto|]].
  - intros (ext & Hips & Hlikes & Hnd & Hmem). exists (ext ++ [me])%list.
    rewrite Hips, Hlikes, <- app_assoc, length_app. cbn [length].
    split; [reflexivity|]. split; [lia|]. split.
    + apply NoDup_app. split; [exact Hnd|]. split; [|apply NoDup_singleton].
      intros x Hx Hx'. apply list_elem_of_singleton in Hx'. subst x.
      apply Hnew. rewrite Hips. apply elem_of_app. right. exact Hx.
    + intros x Hx. apply elem_of_app in Hx. destruct Hx as [Hx|Hx]; [auto|].
      apply list_elem_of_singleton in Hx. subst x. exact Hme.
  - rewrite elem_of_app, list_elem_of_singleton. split; [|tauto].
    intros [H|H]; [exact H | congruence].
Qed.

(** As long as nobody else records its IP, a like of [sym] from [me]
    leaves [me] recorded, keeps the row [extended], and does not record
    [you]. *)
Lemma like_rg_ips (sym : string) (c0 : Z) (l0 : list string)
    (ip1 ip2 me you : string) (t : gmap string Row) :
  me = ip1 \/ me = ip2 -> me <> you ->
  safe_rg (extends_without sym c0 l0 ip1 ip2 me) (extends_without sym c0 l0 ip1 ip2 you)
          (fun _ t' => me ∈ ips_of t' sym)
          (ServerJs2.likeStockIfNeeded sym me true) t.
Proof.
  intros Hme Hne. cbn. intros t1 H1. split; [apply insert_row_extends|].
  intros t2 (_ & Hex2 & Hin2). split; [apply extends_without_refl|].
  assert (Hsome : is_Some (t2 !! sym)).
  { apply Hex2. rewrite insert_row_lookup, decide_True by reflexivity. eauto. }
  destruct Hsome as [r Hr]. rewrite Hr.
  assert (Hips2 : ips_of t2 sym = ips r) by (unfold ips_of; rewrite Hr; reflexivity).
  destruct (includes (ips r) me) eqn:E; cbn.
  - intros t3 (_ & _ & Hin3). apply Hin3. rewrite Hips2. apply includes_elem_of, E.
  - intros t3 (_ & Hex3 & Hin3). split.
    + apply update_like_extends; [exact Hme | exact Hne |].
      rewrite Hin3, Hips2. apply includes_not_elem_of, E.
    + intros t4 (_ & _ & Hin4). apply Hin4.
      destruct (Hex3 (ex_intro _ r Hr)) as [r3 Hr3].
      unfold ips_of. rewrite update_like_lookup, decide_True, Hr3 by reflexivity.
      cbn. apply elem_of_app. right. apply list_elem_of_singleton. reflexivity.
Qed.

(** X15.  Two [likeStockIfNeeded] calls for one symbol from two
    different IPs, neither recorded yet, started together: in every order
    of service both return, the count has risen by exactly two and the
    two IPs have been appended, each once.  The increment is made by the
    UPDATE itself, so neither like is lost. *)
Theorem likes_from_different_ips_both_count (sched : list bool)
    (sym ip1 ip2 : string) (s : Store) :
  ip1 <> ip2 ->
  ip1 ∉ ips_of (table s) sym -> ip2 ∉ ips_of (table s) sym ->
  let r := run (all2 sched (ServerJs.likeStockIfNeeded sym ip1 true)
                           (ServerJs.likeStockIfNeeded sym ip2 true)) s in
  fst r = Ok (tt, tt)
  /\ likes_of (table (snd r)) sym = likes_of (table s) sym + 2
  /\ exists ext, ips_of (table (snd r)) sym = (ips_of (table s) sym ++ ext)%list
                 /\ ext ≡ₚ [ip1; ip2].
Proof.
  intros Hne Hn1 Hn2. cbv zeta. rewrite like_same.
  set (c0 := likes_of (table s) sym). set (l0 := ips_of (table s) sym).
  destruct (safe_rg_run
              (fun t t' => extends_without sym c0 l0 ip1 ip2 ip1 t t'
                           /\ extends_without sym c0 l0 ip1 ip2 ip2 t t')
              (fun t t' => extends_without sym c0 l0 ip1 ip2 ip2 t t'
                           \/ extends_without sym c0 l0 ip1 ip2 ip1 t t')
              (fun t t' => extended sym c0 l0 ip1 ip2 t -> extended sym c0 l0 ip1 ip2 t')
              (fun (_ : unit * unit) t' => ip1 ∈ ips_of t' sym /\ ip2 ∈ ips_of t' sym)
              (all2 sched (ServerJs2.likeStockIfNeeded sym ip1 true)
                          (ServerJs2.likeStockIfNeeded sym ip2 true)))
    with (s := s) as ([[] []] & s' & Hrun & [H1 H2] & HT).
  - intros t. split; apply extends_without_refl.
  - auto.
  - auto.
  - intros t t' [H|H]; apply H.
  - apply (safe_rg_all2
             (extends_without sym c0 l0 ip1 ip2 ip1) (extends_without sym c0 l0 ip1 ip2 ip2)
             (extends_without sym c0 l0 ip1 ip2 ip2) (extends_without sym c0 l0 ip1 ip2 ip1)
             (extends_without_trans sym c0 l0 ip1 ip2 ip1)
             (extends_without_trans sym c0 l0 ip1 ip2 ip2)
             (fun t t' H => H) (fun t t' H => H)
             (fun _ t' => ip1 ∈ ips_of t' sym) (fun _ t' => ip2 ∈ ips_of t' sym)).
    + apply like_rg_ips; [left; reflexivity | exact Hne].
    + apply like_rg_ips; [right; reflexivity | congruence].
  - rewrite Hrun. cbn [fst snd].
    destruct HT as (ext & Hips & Hlikes & Hnd & Hmem).
    { exists []. unfold c0, l0. rewrite app_nil_r. cbn.
      split; [reflexivity|]. split; [lia|]. split; [constructor|].
      intros x Hx. inversion Hx. }
    assert (Hperm : ext ≡ₚ [ip1; ip2]).
    { apply NoDup_Permutation; [exact Hnd | |].
      - apply NoDup_cons. split; [|apply NoDup_singleton].
        rewrite list_elem_of_singleton. exact Hne.
      - intros x. rewrite elem_of_cons, list_elem_of_singleton. split; [apply Hmem|].
        rewrite Hips in H1, H2. apply elem_of_app in H1, H2.
        intros [->| ->]; [destruct H1 | destruct H2]; auto; contradiction. }
    split; [reflexivity|]. split.
    + rewrite Hlikes, (Permutation_length Hperm). cbn. lia.
    + exists ext. auto.
Qed.

Lemma likes_from_different_ips_both_count_witness :
  let r := run (all2 [true; false; true; false]
                  (ServerJs.likeStockIfNeeded "GOOG" "1.2.3.4" true)
                  (ServerJs.likeStockIfNeeded "GOOG" "5.6.7.8" true)) fresh in
  fst r = Ok (tt, tt)
  /\ likes_of (table (snd r)) "GOOG" = likes_of (table fresh) "GOOG" + 2
  /\ exists ext, ips_of (table (snd r)) "GOOG" = (ips_of (table fresh) "GOOG" ++ ext)%list
                 /\ ext ≡ₚ ["1.2.3.4"; "5.6.7.8"].
Proof.
  cbv zeta. apply likes_from_different_ips_both_count.
  - discriminate.
  - vm_compute. intros H. inversion H.
  - vm_compute. intros H. inversion H.
Defined.

(* ===================================================================== *)
(** ** Requests one after the other *)
(* ===================================================================== *)

Lemma counted_once_same_rows (t t' : gmap string Row) :
  same_rows t t' -> (forall x, counted_once t x) -> forall x, counted_once t' x.
Proof.
  intros Hsame H x. unfold counted_once. destruct (Hsame x) as [-> ->]. apply H.
Qed.

Lemma rest_keeps_counted_once {P : Type} (rest : prog P) (s : Store) :
  sends no_update rest -> (forall x, counted_once (table s) x) ->
  forall x, counted_once (table (snd (run rest s))) x.
Proof.
  intros Hrest. apply counted_once_same_rows.
  apply (sends_keeps same_rows no_update rest
           same_rows_refl same_rows_trans same_rows_exec Hrest).
Qed.

Lemma reads2_no_update (o : order) (symA symB : string) :
  sends no_update
    (all2 (join_order o)
       (all2 (price_order o) (ServerJs2.getStockPrice symA) (ServerJs2.getStockPrice symB))
       (all2 (count_order o) (ServerJs2.getLikes symA) (ServerJs2.getLikes symB))).
Proof.
  apply sends_all2; apply sends_all2; try exact I; cbn; auto.
Qed.

Lemma reads1_no_update (proxy : string -> option quote) (o : order) (symA symB : string) :
  sends no_update
    (all2 (join_order o)
       (all2 (price_order o) (ServerJs.getStockPrice proxy symA)
                             (ServerJs.getStockPrice proxy symB))
       (all2 (count_order o) (ServerJs.getLikes symA) (ServerJs.getLikes symB))).
Proof.
  apply sends_all2; apply sends_all2;
    try (unfold ServerJs.getStockPrice; destruct (proxy _); exact I); cbn; auto.
Qed.

Lemma single2_keeps_counted_once (sym ip : string) (f : bool) (s : Store) :
  (forall x, counted_once (table s) x) ->
  forall x, counted_once (table (snd (run
    (ServerJs2.likeStockIfNeeded sym ip f ;;
     sp <- ServerJs2.getStockPrice sym ;;
     likes <- ServerJs2.getLikes sym ;;
     Ret (mkResponse 200 (JsonStockData (One (fst sp) (snd sp) likes)))) s))) x.
Proof.
  intros Hs. rewrite run_bind, run_like2. apply rest_keeps_counted_once.
  - apply sends_bind; [exact I|]. intros sp.
    apply sends_bind; [cbn; auto | intros likes; exact I].
  - intros x. apply counted_once_like_table, Hs.
Qed.

Lemma single1_keeps_counted_once (proxy : string -> option quote) (sym ip : string)
    (f : bool) (s : Store) :
  (forall x, counted_once (table s) x) ->
  forall x, counted_once (table (snd (run
    (ServerJs.likeStockIfNeeded sym ip f ;;
     sp <- ServerJs.getStockPrice proxy sym ;;
     likes <- ServerJs.getLikes sym ;;
     Ret (mkResponse 200 (JsonStockData (One (fst sp) (snd sp) likes)))) s))) x.
Proof.
  intros Hs. rewrite run_bind, run_like1. apply rest_keeps_counted_once.
  - apply sends_bind; [unfold ServerJs.getStockPrice; destruct (proxy _); exact I|].
    intros sp. apply sends_bind; [cbn; auto | intros likes; exact I].
  - intros x. apply counted_once_like_table, Hs.
Qed.

Lemma handler2_keeps_counted_once (o : order) (req : request) (s : Store) :
  separate req -> (forall x, counted_once (table s) x) ->
  forall x, counted_once (table (snd (run (ServerJs2.handler o req) s))) x.
Proof.
  intros Hsep Hs. unfold separate in Hsep.
  unfold ServerJs2.handler, ServerJs2.call_String. rewrite run_catch_store. cbv zeta.
  destruct (String_ (query_like req)) as [sl|]; cbn [bind]; [|exact Hs].
  destruct (truthy (query_stock req)); cbn [negb]; [|exact Hs].
  destruct (query_stock req) as [|sym|l|own];
    cbn [length Nat.eqb nth ServerJs2.call_toUpperCase bind]; try exact Hs.
  - apply single2_keeps_counted_once, Hs.
  - destruct l as [|a [|b rest]]; cbn [firstn length Nat.eqb nth].
    + cbn in Hsep. destruct Hsep as (_ & _ & H). contradiction H. reflexivity.
    + destruct a as [|sym|l'|own]; cbn [ServerJs2.call_toUpperCase bind]; try exact Hs.
      apply single2_keeps_counted_once, Hs.
    + cbn [nth] in Hsep.
      destruct (String_ a) as [sa|]; cbn [bind]; [|exact Hs].
      destruct (String_ b) as [sb|]; cbn [bind]; [|exact Hs].
      destruct Hsep as (_ & _ & Hne).
      rewrite run_bind.
      destruct (likes_of_two_symbols (like_order o) _ _ (ServerJs2.getClientIP req)
                  (ServerJs2.getClientIP req)
                  (String.eqb (toLowerCase sl) "true")
                  (String.eqb (toLowerCase sl) "true") s Hne)
        as (s1 & -> & Ht).
      apply rest_keeps_counted_once.
      * apply sends_bind; [apply reads2_no_update | intros r; exact I].
      * intros x. rewrite Ht. apply counted_once_like_table.
        intros y. apply counted_once_like_table, Hs.
Qed.

Lemma handler1_keeps_counted_once (proxy : string -> option quote) (o : order)
    (req : request) (s : Store) :
  separate req -> (forall x, counted_once (table s) x) ->
  forall x, counted_once (table (snd (run (ServerJs.handler proxy o req) s))) x.
Proof.
  intros Hsep Hs. unfold separate in Hsep.
  unfold ServerJs.handler, ServerJs.call_String. rewrite run_catch_store. cbv zeta.
  destruct (String_ (query_like req)) as [sl|]; cbn [bind]; [|exact Hs].
  destruct (truthy (query_stock req)); cbn [negb]; [|exact Hs].
  destruct (query_stock req) as [|sym|l|own];
    cbn [length Nat.eqb nth ServerJs.call_toUpperCase bind]; try exact Hs.
  - apply single1_keeps_counted_once, Hs.
  - destruct l as [|a [|b rest]]; cbn [length Nat.eqb nth].
    + cbn in Hsep. destruct Hsep as (_ & _ & H). contradiction H. reflexivity.
    + destruct a as [|sym|l'|own]; cbn [ServerJs.call_toUpperCase bind]; try exact Hs.
      apply single1_keeps_counted_once, Hs.
    + cbn [nth] in Hsep.
      destruct (String_ a) as [sa|]; cbn [bind]; [|exact Hs].
      destruct (String_ b) as [sb|]; cbn [bind]; [|exact Hs].
      destruct Hsep as (_ & _ & Hne).
      rewrite run_bind, like_same.
      destruct (likes_of_two_symbols (like_order o) _ _ (ServerJs.getClientIP req)
                  (ServerJs.getClientIP req)
                  (String.eqb (toLowerCase sl) "true")
                  (String.eqb (toLowerCase sl) "true") s Hne)
        as (s1 & -> & Ht).
      apply rest_keeps_counted_once.
      * apply sends_bind; [apply reads1_no_update | intros r; exact I].
      * intros x. rewrite Ht. apply counted_once_like_table.
        intros y. apply counted_once_like_table, Hs.
Qed.

Lemma serve_all_keeps (handler : order -> request -> prog response)
    (ok : request -> Prop) (rs : list (order * request)) :
  (forall o req s, ok req -> (forall x, counted_once (table s) x) ->
     forall x, counted_once (table (snd (run (handler o req) s))) x) ->
  Forall (fun r => ok (snd r)) rs ->
  forall s, (forall x, counted_once (table s) x) ->
  forall x, counted_once (table (serve_all handler rs s)) x.
Proof.
  intros Hstep Hrs. induction Hrs as [|[o req] rs Hr Hrs IH]; intros s Hs; [exact Hs|].
  cbn [serve_all fold_left fst snd]. apply IH. apply Hstep; assumption.
Qed.

(** X16.  Requests answered one after the other from the empty table,
    each in any order of service: as long as the symbols are ASCII
    strings and no request names the same upper-case symbol twice, after
    all of them every symbol's like count is the number of distinct IPs
    recorded for it and no IP is recorded twice.  Requests of any other
    shape are allowed: one symbol, two different symbols, more than two,
    missing or malformed stock, any [like]; both copies, server.js with
    any quote proxy. *)
Theorem separate_requests_count_each_ip_once (rs : list (order * request)) (x : string) :
  Forall (fun r => separate (snd r)) rs ->
  counted_once (table (serve_all ServerJs2.handler rs fresh)) x
  /\ forall proxy, counted_once (table (serve_all (ServerJs.handler proxy) rs fresh)) x.
Proof.
  intros Hrs. split.
  - apply (serve_all_keeps ServerJs2.handler separate rs
             handler2_keeps_counted_once Hrs fresh counted_once_fresh).
  - intros proxy.
    apply (serve_all_keeps (ServerJs.handler proxy) separate rs
             (handler1_keeps_counted_once proxy) Hrs fresh counted_once_fresh).
Qed.

Lemma separate_requests_count_each_ip_once_witness :
  let o := mkOrder [true; false; true; false] [] [false; true] [true] in
  let rs := [ (o, mkRequest (QArray [QString "goog"; QString "msft"]) (QString "true")
                    (Some "1.2.3.4") None None);
              (o, mkRequest (QString "GOOG") (QString "true") (Some "1.2.3.4") None None);
              (o, mkRequest (QObject false) (QString "true") (Some "5.6.7.8") None None);
              (o, mkRequest (QString "GOOG") (QObject true) (Some "5.6.7.8") None None);
              (o, mkRequest (QArray [QString "msft"; QString "aapl"; QString "msft"])
                    (QString "TRUE") (Some "5.6.7.8") None None) ] in
  counted_once (table (serve_all ServerJs2.handler rs fresh)) "MSFT"
  /\ forall proxy, counted_once (table (serve_all (ServerJs.handler proxy) rs fresh)) "MSFT".
Proof.
  cbv zeta. apply separate_requests_count_each_ip_once.
  repeat (apply Forall_cons_2;
          [cbn; first [exact I | reflexivity
                      | split; [reflexivity | split; [reflexivity | discriminate]]]|]).
  apply Forall_nil_2.
Defined.
